(** * sratools driver tool: accession expansion and multi-source dispatch

    A shallow embedding of [tools/driver-tool/sratools.cpp]: the accession
    scanner [SRA_AccessionType], the expander [expandAll], the child
    supervisor [processSource], the per-run loop [processRun] and the top
    level [processAccessions], followed by the properties claimed of them. *)

From Stdlib Require Import ZArith Ascii String List Bool Lia.
From stdpp Require Import base decidable option list strings gmap.

#[local] Set Warnings "-clear-no-such-hyp".

Local Open Scope Z_scope.

(** ** Characters

    A [char] of the query is an [ascii]; where the source stores a character
    in an [int] ([type = i]) we keep its code.  Only the letters of the
    accession grammar and the digits are ever compared, all below 128, so
    the signedness of [char] plays no role. *)

Definition char_code (c : ascii) : Z := Z.of_N (N_of_ascii c).

Definition is_digit (i : ascii) : bool :=
  (char_code "0" <=? char_code i) && (char_code i <=? char_code "9").

(** ** SRA_AccessionType (lines 87-142) *)

Module Classifier.

(** The three locals of the scanner.  [digits] is an [int] in the source; it
    counts characters of the query and does not wrap for any query shorter
    than 2^31 characters, so it is kept as an unbounded integer. *)
Record scan := Scan { st : Z; type : Z; digits : Z }.

Definition scan0 : scan := Scan 0 0 0.

(** What one trip through the body of the [for] loop does. *)
Inductive step :=
| Next (s : scan)        (* [break] out of the switch: go on with the next character *)
| Return (v : Z)         (* [return v] from inside the loop *)
| Done (s : scan)        (* [goto DONE]: leave the loop *)
| AssertFailed.          (* [assert(!"reachable")] *)

Definition scan_char (s : scan) (i : ascii) : step :=
  match st s with
  | 0 =>
      if (Ascii.eqb i "D" || Ascii.eqb i "E" || Ascii.eqb i "S")%bool
      then Next (Scan (st s + 1) (type s) (digits s))
      else Return 0
  | 1 =>
      if negb (Ascii.eqb i "R") then Return 0
      else Next (Scan (st s + 1) (type s) (digits s))
  | 2 =>
      let type' := char_code i in
      if (Ascii.eqb i "A" || Ascii.eqb i "P" || Ascii.eqb i "R"
          || Ascii.eqb i "S" || Ascii.eqb i "X")%bool
      then Next (Scan (st s + 1) type' (digits s))
      else Return 0
  | 3 =>
      if Ascii.eqb i "." then Done s
      else if negb (is_digit i) then Return 0
      else Next (Scan (st s) (type s) (digits s + 1))
  | _ => AssertFailed
  end.

(** The statement after the loop. *)
Definition finish (s : scan) : Z :=
  if ((6 <=? digits s) && (digits s <=? 9))%bool then type s else 0.

Fixpoint scan_from (s : scan) (query : string) : option Z :=
  match query with
  | EmptyString => Some (finish s)
  | String i rest =>
      match scan_char s i with
      | Next s' => scan_from s' rest
      | Return v => Some v
      | Done s' => Some (finish s')
      | AssertFailed => None
      end
  end.

End Classifier.

(** [None] stands for the failed assertion of the [default:] branch. *)
Definition SRA_AccessionType (query : string) : option Z :=
  Classifier.scan_from Classifier.scan0 query.

(** ** Categories

    The scanner returns the third character or 0; the meaning of that
    number is given by the [switch (type)] of [expandAll] (lines 160-176):
    ['R'] is a run, ['P'], ['S'] and ['X'] are containers, and everything
    else, 0 and ['A'] included, is left for the resolver. *)
Inductive AccessionCategory := Run | Container | Unrecognized.

Definition category_of_type (type : Z) : AccessionCategory :=
  if type =? char_code "R" then Run
  else if ((type =? char_code "P") || (type =? char_code "S")
           || (type =? char_code "X"))%bool then Container
  else Unrecognized.

Definition category (query : string) : option AccessionCategory :=
  category_of_type <$> SRA_AccessionType query.

(** ** Processes, output and termination *)

(** The constants of [<sysexits.h>] used by the dispatcher. *)
Definition EX_UNAVAILABLE : Z := 69.
Definition EX_TEMPFAIL : Z := 75.

(** One item of a [<<] chain. *)
Inductive token := Str (s : string) | Num (n : Z) | Endl.

Definition tab : string := String (ascii_of_nat 9) "".
Definition newline : string := String (ascii_of_nat 10) "".

(** [ParamList]: name and optional value, in command line order. *)
Definition ParamList := list (string * option string).

(** A data source as the dispatcher sees it: [service()] names it, and
    [set_environment()] is run by the child before it execs the tool. *)
Record source := Source { service : string }.

(** What the child does between [fork] and [exec] (the lambda of
    [processRun]): the parameter list it execs with, after the output file
    entry has been rewritten, the source whose environment it sets, and the
    run it passes as the last argument. *)
Record child_code := ChildCode {
  child_toolname : string;
  child_toolpath : string;
  child_source : source;
  child_parameters : ParamList;
  child_run : string
}.

(** The result of [child.wait()], through the four observers the
    supervisor calls on it. *)
Record wait_result := WaitResult {
  exited : bool;
  exit_code : Z;
  signaled : bool;
  termsig : Z
}.

(** What the process does that can be seen from outside, in order. *)
Inductive event :=
| Cerr (msg : list token)
| Cout (msg : list token)
| LOG (level : Z) (msg : list token)
| SetCeTokenEnvVar (run : string)
| RunChild (c : child_code).

(** How a call ends. *)
Inductive outcome (A : Type) :=
| Returned (a : A)
| Exited (code : Z)                       (* [exit(code)] *)
| Aborted                                 (* [abort()], or a failed [assert] *)
| Execed (path : string) (argv : list string)  (* [execve]: the image is replaced *)
| Thrown (what : string)                  (* [throw_system_error] *)
| NoValue.                                (* [value()] of a parameter that has none *)
Arguments Returned {A} a.
Arguments Exited {A} code.
Arguments Aborted {A}.
Arguments Execed {A} path argv.
Arguments Thrown {A} what.
Arguments NoValue {A}.

(** The state threaded through the dispatcher: what has been printed and
    spawned so far, oldest first, and how many children were started. *)
Record world := World { trace : list event; spawned : nat }.

Definition world0 : world := World [] 0.

(** What the machine and the resolver answer: [access(path, R_OK) == 0],
    [data_sources(run)], the pid and wait result of the n-th child started
    (counted from 0), whether [execve] of a path succeeds, and [*argv0]. *)
Record env := Env {
  readable : string → bool;
  data_sources : string → list source;
  child_status : nat → Z * wait_result;
  execve_ok : string → bool;
  argv0 : string
}.

Definition M (A : Type) : Type := world → outcome A * world.

Definition ret {A} (a : A) : M A := fun w => (Returned a, w).

Definition bind {A B} (m : M A) (k : A → M B) : M B :=
  fun w =>
    match m w with
    | (Returned a, w') => k a w'
    | (Exited c, w') => (Exited c, w')
    | (Aborted, w') => (Aborted, w')
    | (Execed p a, w') => (Execed p a, w')
    | (Thrown s, w') => (Thrown s, w')
    | (NoValue, w') => (NoValue, w')
    end.

Declare Scope dispatch_scope.
Delimit Scope dispatch_scope with M.
Notation "x <- c1 ;; c2" := (bind c1 (fun x => c2))
  (at level 100, c1 at next level, right associativity) : dispatch_scope.
Notation "c1 ;; c2" := (bind c1 (fun _ => c2))
  (at level 100, right associativity) : dispatch_scope.
Local Open Scope dispatch_scope.

Definition emit (e : event) : M unit :=
  fun w => (Returned tt, World (trace w ++ [e]) (spawned w)).

Definition stop {A} (o : outcome A) : M A := fun w => (o, w).

Definition exit {A} (code : Z) : M A := stop (Exited code).
Definition abort {A} : M A := stop Aborted.

(** The children started, in order, as read off a trace. *)
Definition children (t : list event) : list child_code :=
  omap (fun e => match e with RunChild c => Some c | _ => None end) t.

(** The lines written to standard error, in order. *)
Definition cerr_lines (t : list event) : list (list token) :=
  omap (fun e => match e with Cerr m => Some m | _ => None end) t.

Section Model.

Context (os : env).

(** [process::run_child(childCode)] followed by [child.wait()]. *)
Definition run_child (c : child_code) : M (Z * wait_result) :=
  fun w =>
    (Returned (child_status os (spawned w)),
     World (trace w ++ [RunChild c]) (S (spawned w))).

(** ** expandAll (lines 144-185) *)

Record expand_state := ExpandState {
  result : list string;
  seen : gset string;
  failed : bool
}.

Definition container_message (acc : string) : list token :=
  [Str acc;
   Str " is a container accession. For more information, see https://www.ncbi.nlm.nih.gov/sra/?term=";
   Str acc; Endl].

Definition expansion_unavailable_message : list token :=
  [Str "Automatic expansion of container accessions is not currently available. See the above link(s) for information about the constituent run data accessions. For example, you can download the accession list and then re-run with --option-file=SraAccList.txt "; Endl].

(** The body of the [for] loop over the accessions. *)
Definition expand_step (s : expand_state) (acc : string) : M expand_state :=
  if decide (acc ∈ seen s) then ret s
  else
    let seen' := {[acc]} ∪ seen s in
    failed' <-
      (if negb (readable os acc) then
         match SRA_AccessionType acc with
         | None => abort
         | Some type =>
             match category_of_type type with
             | Run => ret (failed s)
             | Container => emit (Cerr (container_message acc)) ;; ret true
             | Unrecognized => ret (failed s)
             end
         end
       else ret (failed s)) ;;
    ret (ExpandState (result s ++ [acc]) seen' failed').

Fixpoint expand_loop (accessions : list string) (s : expand_state)
  : M expand_state :=
  match accessions with
  | [] => ret s
  | acc :: rest => s' <- expand_step s acc ;; expand_loop rest s'
  end.

Definition expandAll (accessions : list string) : M (list string) :=
  s <- expand_loop accessions (ExpandState [] ∅ false) ;;
  if failed s then
    emit (Cerr expansion_unavailable_message) ;; exit EX_UNAVAILABLE
  else ret (result s).

(** ** processSource (lines 235-256) *)

Definition success_log (run : string) : list token :=
  [Str "Successfully processed "; Str run; Endl].

Definition quit_message (toolname : string) (pid code : Z) : list token :=
  [Str toolname; Str " (PID "; Num pid; Str ") quit with error code ";
   Num code; Endl].

Definition killed_message (toolname : string) (pid sig : Z) : list token :=
  [Str toolname; Str " (PID "; Num pid; Str ") was killed (signal ";
   Num sig; Str ")"].

Definition processSource (run toolname : string) (childCode : child_code)
  : M bool :=
  child <- run_child childCode ;;
  let pid := fst child in
  let result := snd child in
  if exited result then
    if exit_code result =? 0 then
      emit (LOG 2 (success_log run)) ;; ret true
    else if exit_code result =? EX_TEMPFAIL then ret false
    else
      emit (Cerr (quit_message toolname pid (exit_code result))) ;;
      exit (exit_code result)
  else if signaled result then
    emit (Cerr (killed_message toolname pid (termsig result))) ;;
    emit (Cerr [Endl]) ;;
    abort
  else abort.

(** ** processRun (lines 258-295) *)

Definition no_source_message (run : string) : list token :=
  [Str "Could not get any data for "; Str run;
   Str ", there is no accessible source."; Endl].

Definition failed_source_log (run : string) (src : source) : list token :=
  [Str "failed to get data for "; Str run; Str " from "; Str (service src);
   Endl].

Definition tried_message (run : string) : list token :=
  [Str "Could not get any data for "; Str run;
   Str ", tried to get data from:"; Endl].

Definition service_line (src : source) : list token :=
  [Str tab; Str (service src); Endl].

Definition retry_later_message : list token :=
  [Str "This may be temporary, you should retry later."; Endl].

(** [outputFile] is an iterator into [parameters]: [None] is
    [parameters.end()], [Some i] the i-th entry.  The assignment
    [outputFile->second = run + extension] is made by the child, on its own
    copy of the list. *)
Definition rewrite_output (parameters : ParamList) (outputFile : option nat)
    (run extension : string) : ParamList :=
  match outputFile with
  | None => parameters
  | Some i =>
      alter (fun entry => (fst entry, Some (run +:+ extension))) i parameters
  end.

Section ProcessRun.

Context (run extension toolname toolpath : string)
        (parameters : ParamList) (outputFile : option nat).

Definition source_child (src : source) : child_code :=
  ChildCode toolname toolpath src
            (rewrite_output parameters outputFile run extension) run.

(** The [for] loop over the sources; [success] is the local of that name. *)
Fixpoint source_loop (sources : list source) (success : bool) : M bool :=
  match sources with
  | [] => ret success
  | src :: rest =>
      success' <- processSource run toolname (source_child src) ;;
      if success' then ret success'
      else
        emit (LOG 1 (failed_source_log run src)) ;;
        source_loop rest success'
  end.

Fixpoint print_services (sources : list source) : M unit :=
  match sources with
  | [] => ret tt
  | i :: rest => emit (Cerr (service_line i)) ;; print_services rest
  end.

Definition processRun : M unit :=
  let sources := data_sources os run in
  match sources with
  | [] =>
      emit (Cerr (no_source_message run)) ;;
      ret tt
  | _ =>
      emit (SetCeTokenEnvVar run) ;;
      success <- source_loop sources false ;;
      if negb success then
        emit (Cerr (tried_message run)) ;;
        print_services sources ;;
        emit (Cerr retry_later_message) ;;
        exit EX_TEMPFAIL
      else ret tt
  end.

End ProcessRun.

(** ** processAccessions (lines 499-529) *)

Definition processing_log (run : string) : list token :=
  [Str "Processing "; Str run; Str " ..."; Endl].

Definition all_processed_log : list token :=
  [Str "All runs were processed successfully"; Endl].

Definition emptyInvocation {A} (toolpath : string) : M A :=
  if execve_ok os toolpath then stop (Execed toolpath [argv0 os])
  else stop (Thrown ("failed to exec " +:+ toolpath)).

Fixpoint print_output_files (runs : list string) (extension : string)
  : M unit :=
  match runs with
  | [] => ret tt
  | run :: rest =>
      emit (Cout [Str tab; Str run; Str extension; Endl]) ;;
      print_output_files rest extension
  end.

Definition print_unsafe_output_file_message (runs : list string)
    (toolname extension : string) : M unit :=
  emit (Cout [Str "You are trying to process "; Num (Z.of_nat (length runs));
              Str " runs to a single output file, but "; Str toolname; Endl;
              Str ("is not capable of producing valid output from more than one run into a single"
                   +:+ newline
                   +:+ "file. The following output files will be created instead:"
                   +:+ newline)]) ;;
  print_output_files runs extension.

(** The scan for the unsafe output parameter, from the i-th entry on.  The
    right operand of [&&] is evaluated only when the names are equal, and
    then calls [value()] whether or not the entry has a value. *)
Fixpoint find_output_file (unsafeOutputFileParamName : string)
    (runs : list string) (toolname extension : string)
    (rest : ParamList) (i : nat) : M (option nat) :=
  match rest with
  | [] => ret None
  | (first, second) :: rest' =>
      if String.eqb first unsafeOutputFileParamName then
        match second with
        | None => stop NoValue
        | Some value =>
            if negb (String.eqb value "/dev/null") then
              print_unsafe_output_file_message runs toolname extension ;;
              ret (Some i)
            else
              find_output_file unsafeOutputFileParamName runs toolname
                               extension rest' (S i)
        end
      else
        find_output_file unsafeOutputFileParamName runs toolname extension
                         rest' (S i)
  end.

Fixpoint run_loop (runs : list string) (extension toolname toolpath : string)
    (parameters : ParamList) (outputFile : option nat) : M unit :=
  match runs with
  | [] => ret tt
  | run :: rest =>
      emit (LOG 3 (processing_log run)) ;;
      processRun run extension toolname toolpath parameters outputFile ;;
      run_loop rest extension toolname toolpath parameters outputFile
  end.

(** [unsafeOutputFileParamName] is a [char const *]: [None] is the null
    pointer. *)
Definition processAccessions (toolname toolpath : string)
    (unsafeOutputFileParamName : option string) (extension : string)
    (parameters : ParamList) (accessions : list string) : M unit :=
  match accessions with
  | [] => emptyInvocation toolpath
  | _ =>
      runs <- expandAll accessions ;;
      outputFile <-
        match unsafeOutputFileParamName with
        | Some name =>
            if (1 <? length runs)%nat then
              find_output_file name runs toolname extension parameters 0
            else ret None
        | None => ret None
        end ;;
      run_loop runs extension toolname toolpath parameters outputFile ;;
      emit (LOG 1 all_processed_log) ;;
      exit 0
  end.

End Model.

(** ** The accession grammar, as the specification words it *)

Definition archive_letter (c : ascii) : Prop :=
  c = "D"%char ∨ c = "E"%char ∨ c = "S"%char.

Definition container_letter (c : ascii) : Prop :=
  c = "P"%char ∨ c = "S"%char ∨ c = "X"%char.

Definition type_letter (c : ascii) : Prop :=
  c = "A"%char ∨ c = "R"%char ∨ container_letter c.

Definition valid_prefix (c0 c1 c2 : ascii) : Prop :=
  archive_letter c0 ∧ c1 = "R"%char ∧ type_letter c2.

Fixpoint all_digits (s : string) : bool :=
  match s with
  | EmptyString => true
  | String c rest => is_digit c && all_digits rest
  end.

(** The end of the digit run: the end of the string, or a dot and whatever
    follows it. *)
Definition terminated (tail : string) : Prop :=
  tail = "" ∨ ∃ rest, tail = String "." rest.

Definition accession (c0 c1 c2 : ascii) (rest : string) : string :=
  String c0 (String c1 (String c2 rest)).

Definition digit_count (ds : string) : Z := Z.of_nat (String.length ds).

Definition in_range (n : Z) : bool := (6 <=? n) && (n <=? 9).

(** ** The expander, as the specification words it *)

(** The accessions of a list with every repetition of an earlier one
    removed: the first occurrence of each, in the order of the list. *)
Fixpoint first_occurrences (accessions : list string) : list string :=
  match accessions with
  | [] => []
  | acc :: rest => acc :: filter (λ other, other ≠ acc) (first_occurrences rest)
  end.

Definition is_container (acc : string) : bool :=
  match category acc with
  | Some Container => true
  | _ => false
  end.

(** An accession the expander classifies, and finds to be a container. *)
Definition offending (os : env) (acc : string) : bool :=
  negb (readable os acc) && is_container acc.

(** The offending accessions of an input, each once, in input order. *)
Definition offenders (os : env) (accessions : list string) : list string :=
  filter (λ acc, offending os acc) (first_occurrences accessions).

Definition container_diagnostics (offenders : list string) : list event :=
  (λ acc, Cerr (container_message acc)) <$> offenders.

(** A world after some more events. *)
Definition after (w : world) (events : list event) : world :=
  World (trace w ++ events) (spawned w).

(** The world once one more child has been started and waited for. *)
Definition started (w : world) (c : child_code) : world :=
  World (trace w ++ [RunChild c]) (S (spawned w)).

(** ** The outcomes of a child, as the specification names them *)

Definition status (os : env) (n : nat) : wait_result := (child_status os n).2.
Definition pid (os : env) (n : nat) : Z := (child_status os n).1.

Definition succeeded (r : wait_result) : Prop :=
  exited r = true ∧ exit_code r = 0.

Definition transient_failure (r : wait_result) : Prop :=
  exited r = true ∧ exit_code r = EX_TEMPFAIL.

Definition tool_failure (r : wait_result) : Prop :=
  exited r = true ∧ exit_code r ≠ 0 ∧ exit_code r ≠ EX_TEMPFAIL.

Definition killed (r : wait_result) : Prop :=
  exited r = false ∧ signaled r = true.

(** What a source that fails transiently leaves in the trace. *)
Definition failed_attempts (run extension toolname toolpath : string)
    (parameters : ParamList) (outputFile : option nat)
    (sources : list source) : list event :=
  sources ≫= λ src,
    [RunChild (source_child run extension toolname toolpath parameters
                            outputFile src);
     LOG 1 (failed_source_log run src)].

(** The run list never holds an accession of category container. *)
Definition run_list_free_of_containers (os : env) (accessions : list string)
  : Prop :=
  ∀ w runs w', expandAll os accessions w = (Returned runs, w') →
    ∀ run, run ∈ runs → category run ≠ Some Container.

(** ** Sample machines

    Concrete answers of the machine and the resolver, to run the model on. *)

Definition child_succeeds (pid : Z) : Z * wait_result :=
  (pid, WaitResult true 0 false 0).

Definition child_fails (pid code : Z) : Z * wait_result :=
  (pid, WaitResult true code false 0).

Definition child_killed (pid sig : Z) : Z * wait_result :=
  (pid, WaitResult false 0 true sig).

(** Nothing is readable locally, no run has a source. *)
Definition os_bare : env :=
  Env (λ _, false) (λ _, []) (λ n, child_succeeds (100 + Z.of_nat n))
      (λ _, true) "fasterq-dump".

(** A file named like a project accession sits in the working directory. *)
Definition os_local_file : env :=
  Env (String.eqb "SRP000001") (λ _, [])
      (λ n, child_succeeds (100 + Z.of_nat n)) (λ _, true) "fasterq-dump".

(** ** The parameter scan: entries with and without a value *)

(** An entry that, if it bears the given name, has a value. *)
Definition carries_value (name : string) (entry : string * option string)
  : Prop :=
  entry.1 = name → is_Some entry.2.

(** An entry at which the scan does not stop: it has another name, or its
    value is the discard path, or it has the name and no value. *)
Definition no_match (name : string) (entry : string * option string) : Prop :=
  entry.1 = name → entry.2 = None ∨ entry.2 = Some "/dev/null".

(** A run without any source ends the whole process with EX_TEMPFAIL. *)
Definition empty_sources_terminate (os : env)
    (run extension toolname toolpath : string) (parameters : ParamList)
    (outputFile : option nat) : Prop :=
  data_sources os run = [] →
  ∀ w, (processRun os run extension toolname toolpath parameters outputFile
                   w).1 = Exited EX_TEMPFAIL.

(** Two sources for every run; the first child fails transiently, the
    second succeeds. *)
Definition os_fallback : env :=
  Env (λ _, false) (λ _, [Source "A"; Source "B"])
      (λ n, match n with
            | O => child_fails 4001 EX_TEMPFAIL
            | _ => child_succeeds 4002
            end)
      (λ _, true) "fasterq-dump".

(** Three sources; the first child fails transiently, the second quits
    with code 3. *)
Definition os_tool_error : env :=
  Env (λ _, false) (λ _, [Source "A"; Source "B"; Source "C"])
      (λ n, match n with
            | O => child_fails 4001 EX_TEMPFAIL
            | _ => child_fails 4002 3
            end)
      (λ _, true) "fasterq-dump".

(** SRR000001 has three sources, every other run one; every child fails
    transiently. *)
Definition os_exhausted : env :=
  Env (λ _, false)
      (λ run, if String.eqb run "SRR000001"
              then [Source "A"; Source "B"; Source "C"] else [Source "D"])
      (λ n, child_fails (100 + Z.of_nat n) EX_TEMPFAIL) (λ _, true)
      "fasterq-dump".

(** SRR000001 has no source, every other run has one that works. *)
Definition os_gap : env :=
  Env (λ _, false)
      (λ run, if String.eqb run "SRR000001" then [] else [Source "ncbi"])
      (λ n, child_succeeds (100 + Z.of_nat n)) (λ _, true) "fasterq-dump".

(** ** debugPrintDryRun (lines 204-233)

    Run by the child between [set_environment] and [exec].  [getenv] is the
    environment of the child and [names] the list [env_var::names()], both
    declared outside this file. *)

(** The character at an index of a C string: 0 at its end. *)
Definition c_str_at (s : string) (i : nat) : Z :=
  match String.get i s with
  | Some c => char_code c
  | None => 0
  end.

(** The condition of the [if] on the value of SRATOOLS_DRY_RUN. *)
Definition dry_run_requested (dryrun : option string) : bool :=
  match dryrun with
  | None => false
  | Some v =>
      negb (c_str_at v 0 =? 0)
      && negb ((c_str_at v 0 =? char_code "0") && (c_str_at v 1 =? 0))
  end.

Fixpoint print_parameters (parameters : ParamList) : M unit :=
  match parameters with
  | [] => ret tt
  | value :: rest =>
      emit (Cerr [Str " "; Str value.1]) ;;
      match value.2 with
      | Some v => emit (Cerr [Str " "; Str v])
      | None => ret tt
      end ;;
      print_parameters rest
  end.

Fixpoint print_environment (getenv : string → option string)
    (names : list string) : M unit :=
  match names with
  | [] => ret tt
  | name :: rest =>
      match getenv name with
      | Some value =>
          emit (Cerr [Str " "; Str name; Str "='"; Str value;
                      Str ("'" +:+ newline)])
      | None => ret tt
      end ;;
      print_environment getenv rest
  end.

Definition debugPrintDryRun (os : env) (getenv : string → option string)
    (names : list string) (toolpath : string) (parameters : ParamList)
    (run : string) : M unit :=
  if dry_run_requested (getenv "SRATOOLS_DRY_RUN") then
    emit (Cerr [Str "would exec '"; Str toolpath; Str ("' as:" +:+ newline)]) ;;
    emit (Cerr [Str (argv0 os)]) ;;
    print_parameters parameters ;;
    emit (Cerr [Str " "; Str run; Endl]) ;;
    emit (Cerr [Str ("with environment:" +:+ newline)]) ;;
    print_environment getenv names ;;
    emit (Cerr [Endl]) ;;
    exit 0
  else ret tt.

(** A string that can be the value of a C string: it holds no NUL. *)
Fixpoint no_nul (s : string) : bool :=
  match s with
  | EmptyString => true
  | String c rest => negb (char_code c =? 0) && no_nul rest
  end.

(** ** toolHelp, running_as_tool, running_as_sam_dump (lines 317-411)

    [parseArgs] is declared outside this file: [parsed] is what it leaves
    in [params] and [accessions] when it returns true, and [None] when it
    returns false.  The tool name and path come from [tool_name]. *)

Definition toolHelp {A} (os : env) (toolpath : string) : M A :=
  if execve_ok os toolpath then stop (Execed toolpath [argv0 os; "--help"])
  else stop (Thrown ("failed to exec " +:+ toolpath)).

Definition running_as_tool (os : env) (toolname toolpath : string)
    (unsafeOutputFileParamName : option string) (extension : string)
    (parsed : option (ParamList * list string)) : M unit :=
  match parsed with
  | Some (params, accessions) =>
      processAccessions os toolname toolpath unsafeOutputFileParamName
                        extension params accessions
  | None => toolHelp os toolpath
  end.

(** The predicate of the [std::find_if]. *)
Definition is_fastq_or_fasta (value : string * option string) : bool :=
  String.eqb value.1 "--fastq" || String.eqb value.1 "--fasta".

Definition sam_dump_extension (params : ParamList) : string :=
  match List.find is_fastq_or_fasta params with
  | None => ".sam"
  | Some param => if String.eqb param.1 "--fasta" then ".fasta" else ".fastq"
  end.

Definition sam_dump_outputFileParam (params : ParamList) : option string :=
  match List.find is_fastq_or_fasta params with
  | None => Some "--output-file"
  | Some _ => None
  end.

Definition running_as_sam_dump (os : env) (toolname toolpath : string)
    (parsed : option (ParamList * list string)) : M unit :=
  match parsed with
  | Some (params, accessions) =>
      processAccessions os toolname toolpath
                        (sam_dump_outputFileParam params)
                        (sam_dump_extension params) params accessions
  | None => toolHelp os toolpath
  end.

(** ** What the dispatcher starts, read off the resolver *)

(** The child of the first source of each run that has a source. *)
Definition first_source_children (os : env)
    (extension toolname toolpath : string) (parameters : ParamList)
    (outputFile : option nat) (runs : list string) : list child_code :=
  runs ≫= λ run,
    match data_sources os run with
    | [] => []
    | src :: _ =>
        [source_child run extension toolname toolpath parameters outputFile src]
    end.

(** The notice of [print_unsafe_output_file_message], as events. *)
Definition unsafe_output_notice (runs : list string)
    (toolname extension : string) : list event :=
  Cout [Str "You are trying to process "; Num (Z.of_nat (length runs));
        Str " runs to a single output file, but "; Str toolname; Endl;
        Str ("is not capable of producing valid output from more than one run into a single"
             +:+ newline
             +:+ "file. The following output files will be created instead:"
             +:+ newline)]
  :: ((λ run, Cout [Str tab; Str run; Str extension; Endl]) <$> runs).

(** A child the dispatcher may start for the given runs: the tool, a run of
    the list, one of its sources, and the parameters with at most the value
    of the output file entry changed. *)
Definition well_formed_child (os : env)
    (extension toolname toolpath : string) (parameters : ParamList)
    (outputFile : option nat) (runs : list string) (c : child_code) : Prop :=
  child_run c ∈ runs
  ∧ child_source c ∈ data_sources os (child_run c)
  ∧ c = source_child (child_run c) extension toolname toolpath parameters
                     outputFile (child_source c).

(** How the loop over the sources of a run can end, with [k] the number of
    children it started from world [w]: on the success of the last child,
    on the transient failure of all, on the exit code of the last child, or
    on a last child that did not exit. *)
Definition loop_end (os : env) (w : world) (sources : list source) (k : nat)
    (o : outcome bool) : Prop :=
  match o with
  | Returned true =>
      (0 < k)%nat ∧ succeeded (status os (spawned w + k - 1))
  | Returned false =>
      k = length sources
      ∧ ∀ i, (i < k)%nat → transient_failure (status os (spawned w + i))
  | Exited c =>
      (0 < k)%nat ∧ tool_failure (status os (spawned w + k - 1))
      ∧ c = exit_code (status os (spawned w + k - 1))
  | Aborted => (0 < k)%nat ∧ exited (status os (spawned w + k - 1)) = false
  | _ => False
  end.

(** How the processing of a run can end, with [k] the number of children it
    started from world [w]. *)
Definition run_end (os : env) (w : world) (run : string) (k : nat)
    (o : outcome unit) : Prop :=
  match o with
  | Returned _ =>
      data_sources os run = []
      ∨ ((0 < k)%nat ∧ succeeded (status os (spawned w + k - 1)))
  | Exited c =>
      (c = EX_TEMPFAIL ∧ data_sources os run ≠ []
       ∧ k = length (data_sources os run)
       ∧ ∀ i, (i < k)%nat → transient_failure (status os (spawned w + i)))
      ∨ ((0 < k)%nat ∧ tool_failure (status os (spawned w + k - 1))
         ∧ c = exit_code (status os (spawned w + k - 1)))
  | Aborted => (0 < k)%nat ∧ exited (status os (spawned w + k - 1)) = false
  | _ => False
  end.

(** An entry that, if it bears the given name, sends the output to the
    discard path. *)
Definition discards (name : string) (entry : string * option string) : Prop :=
  entry.1 = name → entry.2 = Some "/dev/null".

(** How the choice of the output file entry can end without a fault, from
    world [w]: no entry is chosen and nothing is printed, or the entry at
    [j] is chosen and the notice is printed. *)
Definition scan_end (unsafeOutputFileParamName : option string)
    (runs : list string) (toolname extension : string)
    (parameters : ParamList) (w : world)
    (outputFile : option nat) (w1 : world) : Prop :=
  (outputFile = None ∧ w1 = w
   ∧ (unsafeOutputFileParamName = None ∨ (length runs ≤ 1)%nat
      ∨ ∃ name, unsafeOutputFileParamName = Some name
                ∧ Forall (discards name) parameters))
  ∨ (∃ name j v,
        unsafeOutputFileParamName = Some name ∧ (1 < length runs)%nat
        ∧ outputFile = Some j
        ∧ parameters !! j = Some (name, Some v) ∧ v ≠ "/dev/null"
        ∧ Forall (discards name) (take j parameters)
        ∧ w1 = after w (unsafe_output_notice runs toolname extension)).

(** The run and source of the child a run is first dispatched to. *)
Definition first_sources (os : env) (runs : list string)
  : list (string * source) :=
  runs ≫= λ run,
    match data_sources os run with
    | [] => []
    | src :: _ => [(run, src)]
    end.

(** A computation that only adds to the trace. *)
Definition extending {A} (m : M A) : Prop :=
  ∀ w, ∃ events, trace (m w).2 = trace w ++ events.

(** Every child exits with code 0. *)
Definition all_children_succeed (os : env) : Prop :=
  ∀ n, succeeded (status os n).

(** ** Properties of the scanner *)

Module ClassifierFacts.
Import Classifier.

Lemma digit_not_dot c : is_digit c = true → Ascii.eqb c "." = false.
Proof.
  intros Hd. destruct (Ascii.eqb_spec c "."%char) as [->|]; [|done].
  discriminate Hd.
Qed.

Lemma scan_prefix c0 c1 c2 rest :
  valid_prefix c0 c1 c2 →
  scan_from scan0 (accession c0 c1 c2 rest)
  = scan_from (Scan 3 (char_code c2) 0) rest.
Proof.
  intros (H0 & -> & H2).
  destruct H0 as [->|[->| ->]];
    destruct H2 as [->|[->|[->|[->| ->]]]]; reflexivity.
Qed.

Lemma scan_bad_prefix c0 c1 c2 rest :
  ¬ valid_prefix c0 c1 c2 →
  scan_from scan0 (accession c0 c1 c2 rest) = Some 0.
Proof.
  intros Hbad. unfold accession, scan0. cbn [scan_from].
  unfold scan_char at 1. cbn [st type digits].
  destruct (Ascii.eqb_spec c0 "D"%char) as [E0|N0];
  destruct (Ascii.eqb_spec c0 "E"%char) as [E1|N1];
  destruct (Ascii.eqb_spec c0 "S"%char) as [E2|N2]; cbn [orb]; try reflexivity.
  all: unfold scan_char at 1; cbn [st type digits Z.add Pos.add];
    destruct (Ascii.eqb_spec c1 "R"%char) as [R1|R1]; cbn [negb];
      try reflexivity.
  all: unfold scan_char at 1; cbn [st type digits Z.add Pos.add Pos.succ].
  all: destruct (Ascii.eqb_spec c2 "A"%char);
    destruct (Ascii.eqb_spec c2 "P"%char);
    destruct (Ascii.eqb_spec c2 "R"%char);
    destruct (Ascii.eqb_spec c2 "S"%char);
    destruct (Ascii.eqb_spec c2 "X"%char); cbn [orb]; try reflexivity.
  all: exfalso; apply Hbad; unfold valid_prefix, archive_letter, type_letter,
    container_letter; tauto.
Qed.

Lemma scan_digits t d ds tail :
  all_digits ds = true →
  scan_from (Scan 3 t d) (ds +:+ tail)
  = scan_from (Scan 3 t (d + digit_count ds)) tail.
Proof.
  revert d. induction ds as [|c ds IH]; intros d Hds.
  - unfold digit_count. cbn. by rewrite Z.add_0_r.
  - cbn in Hds. apply andb_prop in Hds as [Hc Hds].
    change (String c ds +:+ tail) with (String c (ds +:+ tail)).
    cbn [scan_from]. unfold scan_char. cbn [st type digits].
    rewrite (digit_not_dot _ Hc), Hc. cbn [negb].
    rewrite IH by done. f_equal. f_equal. unfold digit_count.
    cbn [String.length]. lia.
Qed.

Lemma scan_end t d tail :
  terminated tail → scan_from (Scan 3 t d) tail = Some (finish (Scan 3 t d)).
Proof. intros [->|[rest ->]]; reflexivity. Qed.

Lemma scan_bad_char t d c rest :
  c ≠ "."%char → is_digit c = false →
  scan_from (Scan 3 t d) (String c rest) = Some 0.
Proof.
  intros Hdot Hd. cbn [scan_from]. unfold scan_char. cbn [st].
  destruct (Ascii.eqb_spec c "."%char); [done|]. by rewrite Hd.
Qed.

(** The [default:] branch of the scanner is dead: [st] never leaves 0..3. *)
Lemma scan_from_total s query :
  0 <= st s <= 3 → is_Some (scan_from s query).
Proof.
  revert s. induction query as [|i rest IH]; intros s Hs; [by eexists|].
  cbn [scan_from]. unfold scan_char.
  destruct s as [n t d]; cbn [st type digits] in *.
  assert (n = 0 ∨ n = 1 ∨ n = 2 ∨ n = 3) as [->|[->|[->| ->]]] by lia.
  all: repeat match goal with
         | |- context [if ?b then _ else _] => destruct b
         end; try (by eexists); apply IH; cbn; lia.
Qed.

(** Once the prefix is read, the scanner can only return 0 or the type. *)
Lemma scan_digits_values t d query v :
  scan_from (Scan 3 t d) query = Some v → v = 0 ∨ v = t.
Proof.
  revert d. induction query as [|c rest IH]; intros d.
  - cbn. unfold finish. cbn. destruct (_ && _)%bool; naive_solver.
  - cbn [scan_from]. unfold scan_char. cbn [st type digits].
    destruct (Ascii.eqb c ".").
    + unfold finish. cbn. destruct (_ && _)%bool; naive_solver.
    + destruct (negb _); [naive_solver|]. apply IH.
Qed.

Lemma valid_prefix_dec c0 c1 c2 :
  {valid_prefix c0 c1 c2} + {¬ valid_prefix c0 c1 c2}.
Proof.
  change (Decision (valid_prefix c0 c1 c2)).
  unfold valid_prefix, archive_letter, type_letter, container_letter.
  apply _.
Qed.

End ClassifierFacts.

Lemma SRA_AccessionType_total query : is_Some (SRA_AccessionType query).
Proof. apply ClassifierFacts.scan_from_total. cbn. lia. Qed.

(** ** Claims on the scanner *)

(** C4. A string made of a valid three-letter prefix and a run of decimal
    digits, ending there or at a dot, is accepted exactly when the run has
    between 6 and 9 digits: the scanner then returns the third letter, which
    the expander reads as a run for ['R'] and as a container for ['P'],
    ['S'], ['X']; for any other length it returns 0, read as unrecognised.
    A prefix outside the grammar, or a character after the prefix that is
    neither a digit nor a dot, also gives 0. *)
Theorem classifier_digit_bounds :
  (∀ c0 c1 c2 ds tail,
      valid_prefix c0 c1 c2 → all_digits ds = true → terminated tail →
      let query := accession c0 c1 c2 (ds +:+ tail) in
      let n := digit_count ds in
      SRA_AccessionType query
      = Some (if in_range n then char_code c2 else 0)
      ∧ (c2 = "R"%char →
         category query = Some (if in_range n then Run else Unrecognized))
      ∧ (container_letter c2 →
         category query = Some (if in_range n then Container else Unrecognized))
      ∧ (in_range n = false → category query = Some Unrecognized))
  ∧ (∀ c0 c1 c2 rest,
      ¬ valid_prefix c0 c1 c2 →
      SRA_AccessionType (accession c0 c1 c2 rest) = Some 0
      ∧ category (accession c0 c1 c2 rest) = Some Unrecognized)
  ∧ (∀ c0 c1 c2 ds c rest,
      valid_prefix c0 c1 c2 → all_digits ds = true →
      c ≠ "."%char → is_digit c = false →
      let query := accession c0 c1 c2 (ds +:+ String c rest) in
      SRA_AccessionType query = Some 0
      ∧ category query = Some Unrecognized).
Proof.
  split; [|split].
  - intros c0 c1 c2 ds tail Hp Hds Ht query n.
    assert (SRA_AccessionType query
            = Some (if in_range n then char_code c2 else 0)) as Hscan.
    { unfold SRA_AccessionType, query.
      rewrite ClassifierFacts.scan_prefix, ClassifierFacts.scan_digits,
        ClassifierFacts.scan_end by done.
      unfold Classifier.finish. cbn [Classifier.digits Classifier.type].
      by rewrite Z.add_0_l. }
    split; [done|]. unfold category. rewrite Hscan.
    repeat split.
    + intros ->. by destruct (in_range n).
    + intros [->|[->| ->]]; by destruct (in_range n).
    + by intros ->.
  - intros c0 c1 c2 rest Hbad. unfold category, SRA_AccessionType.
    by rewrite ClassifierFacts.scan_bad_prefix.
  - intros c0 c1 c2 ds c rest Hp Hds Hdot Hc query.
    unfold category, SRA_AccessionType, query.
    by rewrite ClassifierFacts.scan_prefix, ClassifierFacts.scan_digits,
      ClassifierFacts.scan_bad_char.
Qed.

Lemma classifier_digit_bounds_witness :
  SRA_AccessionType "ERS123456789.1" = Some (char_code "S")
  ∧ category "ERS123456789.1" = Some Container
  ∧ category "SRR12345" = Some Unrecognized
  ∧ category "SRR1234567890" = Some Unrecognized.
Proof.
  assert (valid_prefix "E" "R" "S") as Hers
    by (unfold valid_prefix, archive_letter, type_letter, container_letter;
        tauto).
  assert (valid_prefix "S" "R" "R") as Hsrr
    by (unfold valid_prefix, archive_letter, type_letter, container_letter;
        tauto).
  destruct (proj1 classifier_digit_bounds "E"%char "R"%char "S"%char
              "123456789" ".1"
              Hers eq_refl (or_intror (ex_intro _ "1" eq_refl)))
    as (Hscan & _ & Hcontainer & _).
  destruct (proj1 classifier_digit_bounds "S"%char "R"%char "R"%char "12345" ""
              Hsrr eq_refl (or_introl eq_refl)) as (_ & _ & _ & Hfive).
  destruct (proj1 classifier_digit_bounds "S"%char "R"%char "R"%char
              "1234567890" ""
              Hsrr eq_refl (or_introl eq_refl)) as (_ & _ & _ & Hten).
  split; [exact Hscan|]. split.
  { apply Hcontainer. unfold container_letter. tauto. }
  split; [exact (Hfive eq_refl) | exact (Hten eq_refl)].
Defined.

(** C5. Whatever else a string holds, if its third character is ['A'] (a
    submitter accession such as SRA000001) its category is unrecognised. *)
Theorem submitter_unrecognized (c0 c1 : ascii) (rest : string) :
  category (accession c0 c1 "A" rest) = Some Unrecognized.
Proof.
  unfold category.
  destruct (SRA_AccessionType_total (accession c0 c1 "A" rest)) as [v Hv].
  rewrite Hv. cbn.
  enough (v = 0 ∨ v = char_code "A") as [->| ->] by done.
  revert Hv. unfold SRA_AccessionType.
  destruct (ClassifierFacts.valid_prefix_dec c0 c1 "A") as [Hp|Hp].
  - rewrite ClassifierFacts.scan_prefix by done.
    apply ClassifierFacts.scan_digits_values.
  - rewrite ClassifierFacts.scan_bad_prefix by done. naive_solver.
Qed.

(** ** Properties of the expander *)

Section FirstOccurrences.

Implicit Types (l : list string) (x : string).

Lemma elem_of_first_occurrences l x : x ∈ first_occurrences l ↔ x ∈ l.
Proof.
  induction l as [|a l IH]; [done|]. cbn.
  rewrite !elem_of_cons, list_elem_of_filter, IH.
  destruct (decide (x = a)); tauto.
Qed.

Lemma NoDup_first_occurrences l : NoDup (first_occurrences l).
Proof.
  induction l as [|a l IH]; cbn; [constructor|].
  constructor; [|by apply NoDup_filter].
  rewrite list_elem_of_filter. tauto.
Qed.

Lemma filter_absent l x : x ∉ l → filter (λ other, other ≠ x) l = l.
Proof.
  induction l as [|b l IH]; [done|]. intros Hx.
  apply not_elem_of_cons in Hx as [Hne Hx].
  rewrite filter_cons_True by congruence. f_equal. by apply IH.
Qed.

Lemma first_occurrences_NoDup l : NoDup l → first_occurrences l = l.
Proof.
  induction 1 as [|a l Ha _ IH]; [done|]. cbn. rewrite IH. f_equal.
  by apply filter_absent.
Qed.

Lemma filter_first_occurrences (P : string → Prop) `{!∀ x, Decision (P x)} l :
  filter P (first_occurrences l) = first_occurrences (filter P l).
Proof.
  induction l as [|a l IH]; [done|]. cbn [first_occurrences].
  destruct (decide (P a)).
  - rewrite !filter_cons_True by done. cbn [first_occurrences].
    rewrite <- IH. f_equal. rewrite !list_filter_filter.
    apply list_filter_iff. tauto.
  - rewrite !filter_cons_False by done. rewrite <- IH.
    apply list_filter_filter_l. congruence.
Qed.

(** Scanning one more accession: it is dropped when it was met before and
    goes to the end otherwise. *)
Lemma first_occurrences_snoc l x :
  first_occurrences (l ++ [x])
  = if decide (x ∈ l) then first_occurrences l else first_occurrences l ++ [x].
Proof.
  induction l as [|a l IH]; [done|].
  cbn [app first_occurrences]. rewrite IH.
  destruct (decide (x = a)) as [->|Hne].
  - rewrite (decide_True (P := a ∈ a :: l)) by apply list_elem_of_here.
    destruct (decide (a ∈ l)); [done|].
    rewrite filter_app, filter_cons_False, filter_nil, app_nil_r; [done|tauto].
  - destruct (decide (x ∈ l)) as [Hin|Hin].
    + by rewrite (decide_True (P := x ∈ a :: l)) by by apply list_elem_of_further.
    + rewrite (decide_False (P := x ∈ a :: l))
        by (rewrite elem_of_cons; tauto).
      by rewrite filter_app, filter_cons_True, filter_nil.
Qed.

End FirstOccurrences.

Lemma after_nil w : after w [] = w.
Proof. destruct w. unfold after. cbn. by rewrite app_nil_r. Qed.

Lemma after_after w e1 e2 : after (after w e1) e2 = after w (e1 ++ e2).
Proof. unfold after. cbn. by rewrite app_assoc. Qed.

Section ExpanderFacts.

Context (os : env).

Lemma expand_step_spec s acc w :
  expand_step os s acc w
  = if decide (acc ∈ seen s) then (Returned s, w)
    else (Returned (ExpandState (result s ++ [acc]) ({[acc]} ∪ seen s)
                                (failed s || offending os acc)),
          after w (if offending os acc then [Cerr (container_message acc)]
                   else [])).
Proof.
  unfold expand_step. destruct (decide (acc ∈ seen s)); [done|].
  unfold offending, is_container, category.
  destruct (SRA_AccessionType_total acc) as [type ->].
  destruct (readable os acc); cbn.
  - by rewrite orb_false_r, after_nil.
  - destruct (category_of_type type); cbn;
      by rewrite ?orb_false_r, ?orb_true_r, ?after_nil.
Qed.

Lemma expand_loop_spec accessions s w :
  let new := filter (λ acc, acc ∉ seen s) (first_occurrences accessions) in
  expand_loop os accessions s w
  = (Returned (ExpandState (result s ++ new)
                           (seen s ∪ list_to_set accessions)
                           (failed s || existsb (offending os) new)),
     after w (container_diagnostics
                (filter (λ acc, offending os acc) new))).
Proof.
  revert s w. induction accessions as [|acc rest IH]; intros s w new.
  - subst new. cbn. rewrite after_nil, app_nil_r, orb_false_r.
    destruct s as [r sn f]; cbn. unfold ret.
    by rewrite (right_id_L ∅ (∪)).
  - cbn [expand_loop]. unfold bind. rewrite expand_step_spec.
    subst new. cbn [first_occurrences].
    destruct (decide (acc ∈ seen s)) as [Hin|Hin].
    + rewrite IH. rewrite filter_cons_False by tauto.
      rewrite (list_filter_filter_l (λ a, a ∉ seen s) (λ other, other ≠ acc))
        by (intros x Hx Heq; by subst).
      do 3 f_equal. set_solver.
    + rewrite IH. cbn [result seen failed].
      rewrite filter_cons_True by done.
      rewrite (list_filter_filter (λ a, a ∉ seen s) (λ other, other ≠ acc)).
      rewrite (list_filter_iff (λ a, (a ∉ seen s) ∧ (a ≠ acc))
                               (λ a, a ∉ ({[acc]} ∪ seen s))) by set_solver.
      rewrite after_after. rewrite <- app_assoc. cbn [app existsb].
      rewrite orb_assoc. f_equal; [do 2 f_equal; set_solver|].
      f_equal. destruct (offending os acc) eqn:Hoff.
      * rewrite filter_cons_True; [reflexivity|]. by apply Is_true_true.
      * rewrite filter_cons_False; [reflexivity|]. by apply Is_true_false.
Qed.

Lemma existsb_first_occurrences (f : string → bool) l :
  existsb f (first_occurrences l) = existsb f l.
Proof.
  apply eq_true_iff_eq. rewrite !existsb_exists.
  split; intros (x & Hx & Hf); exists x; split; try done;
    apply list_elem_of_In; apply list_elem_of_In in Hx;
    by apply elem_of_first_occurrences.
Qed.

Lemma offenders_nil accessions :
  existsb (offending os) accessions = false → offenders os accessions = [].
Proof.
  intros Hnone. unfold offenders.
  induction (first_occurrences accessions) as [|a l IH] eqn:E in Hnone |- *; [done|].
  rewrite <- existsb_first_occurrences, E in Hnone.
  clear E IH. induction (a :: l) as [|b k IHk]; [done|].
  cbn in Hnone. apply orb_false_elim in Hnone as [Hb Hk].
  rewrite filter_cons_False by (by apply Is_true_false). by apply IHk.
Qed.

Lemma offenders_cons accessions :
  existsb (offending os) accessions = true → offenders os accessions ≠ [].
Proof.
  rewrite <- existsb_first_occurrences. intros (x & Hx & Hf)%existsb_exists.
  apply list_elem_of_In in Hx. intros Hnil.
  assert (x ∈ offenders os accessions) as Hin.
  { unfold offenders. apply list_elem_of_filter. split; [|done].
    by apply Is_true_true. }
  rewrite Hnil in Hin. by apply not_elem_of_nil in Hin.
Qed.

(** What [expandAll] does, on every input. *)
Lemma expandAll_spec accessions w :
  expandAll os accessions w
  = if existsb (offending os) accessions then
      (Exited EX_UNAVAILABLE,
       after w (container_diagnostics (offenders os accessions)
                ++ [Cerr expansion_unavailable_message]))
    else (Returned (first_occurrences accessions), w).
Proof.
  unfold expandAll, bind. rewrite expand_loop_spec. cbn [result seen failed].
  rewrite (list_filter_iff (λ a, a ∉ (∅ : gset string)) (λ _, True))
    by set_solver.
  assert (∀ l : list string, filter (λ _, True) l = l) as Hid.
  { induction l as [|a l IHl]; [done|]. by rewrite filter_cons_True, IHl. }
  rewrite Hid, existsb_first_occurrences. cbn [orb app].
  fold (offenders os accessions).
  destruct (existsb (offending os) accessions) eqn:Hany.
  - unfold bind, emit, exit, stop. cbn. unfold after. cbn.
    by rewrite app_assoc.
  - by rewrite offenders_nil, after_nil.
Qed.

End ExpanderFacts.

(** ** Claims on the expander *)

(** C3. Every accession of the input that the expander classifies as a
    container gets a diagnostic naming it; the diagnostics of all of them
    come out before the closing message, and only then does the process
    exit with EX_UNAVAILABLE: no run list is returned.  The lines written to
    standard error are given token by token. *)
Theorem containers_reported_together
    (os : env) (accessions : list string) (acc : string) (w : world) :
  acc ∈ accessions → readable os acc = false →
  category acc = Some Container →
  let diagnostic := λ name : string,
    Cerr [Str name;
          Str " is a container accession. For more information, see https://www.ncbi.nlm.nih.gov/sra/?term=";
          Str name; Endl] in
  let closing :=
    Cerr [Str "Automatic expansion of container accessions is not currently available. See the above link(s) for information about the constituent run data accessions. For example, you can download the accession list and then re-run with --option-file=SraAccList.txt ";
          Endl] in
  (∀ other, other ∈ offenders os accessions
            ↔ other ∈ accessions ∧ readable os other = false
              ∧ category other = Some Container)
  ∧ NoDup (offenders os accessions)
  ∧ expandAll os accessions w
    = (Exited 69,
       World (trace w ++ (diagnostic <$> offenders os accessions) ++ [closing])
             (spawned w))
  ∧ diagnostic acc ∈ trace (expandAll os accessions w).2
  ∧ ∀ runs w', expandAll os accessions w ≠ (Returned runs, w').
Proof.
  intros Hin Hread Hcat diagnostic closing.
  assert (∀ other, other ∈ offenders os accessions
            ↔ other ∈ accessions ∧ readable os other = false
              ∧ category other = Some Container) as Hoff.
  { intros other. unfold offenders.
    rewrite list_elem_of_filter, elem_of_first_occurrences, Is_true_true.
    unfold offending, is_container. rewrite andb_true_iff, negb_true_iff.
    destruct (category other) as [[]|]; naive_solver. }
  assert (existsb (offending os) accessions = true) as Hany.
  { apply existsb_exists. exists acc. split; [by apply list_elem_of_In|].
    unfold offending, is_container. by rewrite Hread, Hcat. }
  assert (expandAll os accessions w
    = (Exited EX_UNAVAILABLE,
       after w (container_diagnostics (offenders os accessions)
                ++ [Cerr expansion_unavailable_message]))) as Hrun.
  { by rewrite expandAll_spec, Hany. }
  assert (trace (expandAll os accessions w).2
          = trace w ++ (diagnostic <$> offenders os accessions) ++ [closing])
    as Htrace by by rewrite Hrun.
  split; [done|]. split.
  { apply NoDup_filter, NoDup_first_occurrences. }
  split; [exact Hrun|]. split; [|by rewrite Hrun].
  rewrite Htrace, !elem_of_app. right. left.
  apply list_elem_of_fmap. exists acc. split; [done|]. by apply Hoff.
Qed.

(** C7. The expander skips an accession equal to one it has already seen:
    unless it stops on a container, it returns the first occurrence of each
    accession of the input, in input order.  ["SRR000001"; "SRR000001"]
    gives a run list of one element. *)
Theorem expander_first_occurrences
    (os : env) (accessions : list string) (w : world) :
  (expandAll os accessions w).1
  = (if existsb (offending os) accessions then Exited EX_UNAVAILABLE
     else Returned (first_occurrences accessions))
  ∧ NoDup (first_occurrences accessions)
  ∧ (∀ acc, acc ∈ first_occurrences accessions ↔ acc ∈ accessions)
  ∧ first_occurrences [] = []
  ∧ (∀ scanned acc,
        first_occurrences (scanned ++ [acc])
        = if decide (acc ∈ scanned) then first_occurrences scanned
          else first_occurrences scanned ++ [acc])
  ∧ expandAll os ["SRR000001"; "SRR000001"] w = (Returned ["SRR000001"], w).
Proof.
  split. { rewrite expandAll_spec. by destruct (existsb _ _). }
  split. { apply NoDup_first_occurrences. }
  split. { intros acc. apply elem_of_first_occurrences. }
  split; [done|]. split. { intros. apply first_occurrences_snoc. }
  rewrite expandAll_spec. cbn [existsb]. unfold offending.
  change (is_container "SRR000001") with false.
  by rewrite andb_false_r.
Qed.

(** C8, as the code has it.  Every entry of the run list is an accession of
    the input that is either readable as a local path, and then was not
    classified at all, or of category run, or unrecognised. *)
Theorem run_list_categories
    (os : env) (accessions : list string) (w w' : world)
    (runs : list string) (run : string) :
  expandAll os accessions w = (Returned runs, w') → run ∈ runs →
  run ∈ accessions
  ∧ (readable os run = true ∨ category run = Some Run
     ∨ category run = Some Unrecognized).
Proof.
  rewrite expandAll_spec.
  destruct (existsb (offending os) accessions) eqn:Hany; [done|].
  intros [= <- <-] Hin. rewrite elem_of_first_occurrences in Hin.
  split; [done|].
  destruct (readable os run) eqn:Hread; [by left|right].
  assert (offending os run = false) as Hoff.
  { destruct (offending os run) eqn:Hoff; [|done].
    assert (existsb (offending os) accessions = true) as Habs; [|congruence].
    apply existsb_exists. exists run. by rewrite <- list_elem_of_In. }
  unfold offending, is_container in Hoff. rewrite Hread in Hoff. cbn in Hoff.
  unfold category in *.
  destruct (SRA_AccessionType_total run) as [type Htype].
  rewrite Htype in *. cbn in *.
  destruct (category_of_type type); auto; discriminate.
Qed.

(** C9. Where the expander returns a run list, running it again on that
    list returns the same list and prints nothing. *)
Theorem expandAll_idempotent
    (os : env) (accessions : list string) (w w' : world)
    (runs : list string) :
  expandAll os accessions w = (Returned runs, w') →
  expandAll os runs w' = (Returned runs, w').
Proof.
  rewrite !expandAll_spec.
  destruct (existsb (offending os) accessions) eqn:Hany; [done|].
  intros [= <- <-].
  rewrite existsb_first_occurrences, Hany.
  by rewrite first_occurrences_NoDup by apply NoDup_first_occurrences.
Qed.

Lemma containers_reported_together_witness :
  expandAll os_bare ["SRP000001"; "SRR000001"; "ERX000002"; "SRP000001"] world0
  = (Exited 69,
     World [Cerr [Str "SRP000001";
                  Str " is a container accession. For more information, see https://www.ncbi.nlm.nih.gov/sra/?term=";
                  Str "SRP000001"; Endl];
            Cerr [Str "ERX000002";
                  Str " is a container accession. For more information, see https://www.ncbi.nlm.nih.gov/sra/?term=";
                  Str "ERX000002"; Endl];
            Cerr [Str "Automatic expansion of container accessions is not currently available. See the above link(s) for information about the constituent run data accessions. For example, you can download the accession list and then re-run with --option-file=SraAccList.txt ";
                  Endl]] 0).
Proof.
  exact (proj1 (proj2 (proj2
    (containers_reported_together
       os_bare ["SRP000001"; "SRR000001"; "ERX000002"; "SRP000001"]
       "SRP000001" world0 (list_elem_of_here _ _) eq_refl eq_refl)))).
Defined.

(** C8 as stated fails where a local file bears the name of a container. *)
Lemma readable_container_in_run_list :
  ¬ run_list_free_of_containers os_local_file ["SRP000001"].
Proof.
  intros Hfree.
  apply (Hfree world0 ["SRP000001"] world0 eq_refl "SRP000001");
    [apply list_elem_of_here | reflexivity].
Qed.

Lemma run_list_categories_witness :
  "SRP000001" ∈ ["SRR000001"; "SRP000001"; "hg19"; "SRR000001"]
  ∧ (readable os_local_file "SRP000001" = true
     ∨ category "SRP000001" = Some Run
     ∨ category "SRP000001" = Some Unrecognized).
Proof.
  apply (run_list_categories
           os_local_file ["SRR000001"; "SRP000001"; "hg19"; "SRR000001"]
           world0 world0 ["SRR000001"; "SRP000001"; "hg19"] "SRP000001").
  - reflexivity.
  - apply list_elem_of_further, list_elem_of_here.
Defined.

Lemma expandAll_idempotent_witness :
  expandAll os_bare ["SRR000001"; "hg19"; "ERR123456"] world0
  = (Returned ["SRR000001"; "hg19"; "ERR123456"], world0).
Proof.
  apply (expandAll_idempotent
           os_bare ["SRR000001"; "hg19"; "SRR000001"; "ERR123456"; "hg19"]
           world0 world0).
  reflexivity.
Defined.

(** ** Properties of the supervisor and of the per-run loop *)

Lemma children_service_lines (sources : list source) :
  children ((λ i, Cerr (service_line i)) <$> sources) = [].
Proof. induction sources as [|i l IH]; [done|]. apply IH. Qed.

Lemma cerr_lines_service_lines (sources : list source) :
  cerr_lines ((λ i, Cerr (service_line i)) <$> sources)
  = service_line <$> sources.
Proof.
  induction sources as [|i l IH]; [done|].
  change (service_line i :: cerr_lines ((λ i, Cerr (service_line i)) <$> l)
          = service_line i :: (service_line <$> l)).
  by rewrite IH.
Qed.

Section SupervisorFacts.

Context (os : env).

Lemma processSource_success run toolname c w :
  succeeded (status os (spawned w)) →
  processSource os run toolname c w
  = (Returned true, after (started w c) [LOG 2 (success_log run)]).
Proof.
  intros [He Hc]. unfold processSource, bind, run_child, status in *.
  cbn. by rewrite He, Hc.
Qed.

Lemma processSource_transient run toolname c w :
  transient_failure (status os (spawned w)) →
  processSource os run toolname c w = (Returned false, started w c).
Proof.
  intros [He Hc]. unfold processSource, bind, run_child, status in *.
  cbn. by rewrite He, Hc.
Qed.

Lemma processSource_tool_failure run toolname c w :
  tool_failure (status os (spawned w)) →
  processSource os run toolname c w
  = (Exited (exit_code (status os (spawned w))),
     after (started w c)
       [Cerr (quit_message toolname (pid os (spawned w))
                           (exit_code (status os (spawned w))))]).
Proof.
  intros (He & H0 & Ht). unfold processSource, bind, run_child, status, pid in *.
  cbn. rewrite He.
  apply Z.eqb_neq in H0, Ht. by rewrite H0, Ht.
Qed.

Lemma processSource_killed run toolname c w :
  killed (status os (spawned w)) →
  processSource os run toolname c w
  = (Aborted,
     after (started w c)
       [Cerr (killed_message toolname (pid os (spawned w))
                             (termsig (status os (spawned w))));
        Cerr [Endl]]).
Proof.
  intros [He Hs]. unfold processSource, bind, run_child, status, pid in *.
  cbn. rewrite He, Hs. unfold bind, emit, abort, stop, after. cbn.
  by rewrite <- !app_assoc.
Qed.

Section Run.

Context (run extension toolname toolpath : string)
        (parameters : ParamList) (outputFile : option nat).

Local Abbreviation child :=
  (source_child run extension toolname toolpath parameters outputFile).
Local Abbreviation loop :=
  (source_loop os run extension toolname toolpath parameters outputFile).
Local Abbreviation attempts :=
  (failed_attempts run extension toolname toolpath parameters outputFile).
Local Abbreviation dispatch :=
  (processRun os run extension toolname toolpath parameters outputFile).

(** Sources that fail transiently are passed over one by one. *)
Lemma source_loop_transient pre rest w :
  (∀ i, (i < length pre)%nat →
        transient_failure (status os (spawned w + i))) →
  loop (pre ++ rest) false w
  = loop rest false
         (World (trace w ++ attempts pre) (spawned w + length pre)).
Proof.
  revert w. induction pre as [|src pre IH]; intros w Hpre.
  - cbn. rewrite app_nil_r, Nat.add_0_r. by destruct w.
  - cbn [app source_loop]. unfold bind at 1.
    rewrite processSource_transient
      by (rewrite <- (Nat.add_0_r (spawned w)); apply Hpre; cbn; lia).
    unfold bind, emit, started. cbn [trace spawned].
    rewrite IH.
    + cbn [trace spawned length]. unfold failed_attempts.
      cbn [mbind list_bind]. rewrite <- !app_assoc. cbn [app].
      by rewrite Nat.add_succ_r.
    + intros i Hi. cbn [spawned]. rewrite Nat.add_succ_comm.
      apply Hpre. cbn. lia.
Qed.

Lemma children_app t1 t2 : children (t1 ++ t2) = children t1 ++ children t2.
Proof. unfold children. apply omap_app. Qed.

Lemma cerr_lines_app t1 t2 :
  cerr_lines (t1 ++ t2) = cerr_lines t1 ++ cerr_lines t2.
Proof. unfold cerr_lines. apply omap_app. Qed.

Lemma children_attempts sources : children (attempts sources) = child <$> sources.
Proof.
  induction sources as [|src l IH]; [done|].
  unfold failed_attempts in *. cbn [mbind list_bind].
  rewrite children_app, IH. done.
Qed.

Lemma cerr_lines_attempts sources : cerr_lines (attempts sources) = [].
Proof.
  induction sources as [|src l IH]; [done|].
  unfold failed_attempts in *. cbn [mbind list_bind].
  rewrite cerr_lines_app, IH. done.
Qed.

Lemma print_services_spec sources w :
  print_services sources w
  = (Returned tt, after w ((λ i, Cerr (service_line i)) <$> sources)).
Proof.
  revert w. induction sources as [|i rest IH]; intros w.
  - by rewrite after_nil.
  - cbn [print_services]. unfold bind, emit. rewrite IH.
    unfold after. cbn. by rewrite <- app_assoc.
Qed.

Lemma processRun_nonempty w :
  data_sources os run ≠ [] →
  dispatch w
  = match loop (data_sources os run) false
                (after w [SetCeTokenEnvVar run]) with
    | (Returned true, w') => (Returned tt, w')
    | (Returned false, w') =>
        (Exited EX_TEMPFAIL,
         after w' ([Cerr (tried_message run)]
                   ++ ((λ i, Cerr (service_line i)) <$> data_sources os run)
                   ++ [Cerr retry_later_message]))
    | (Exited c, w') => (Exited c, w')
    | (Aborted, w') => (Aborted, w')
    | (Execed p a, w') => (Execed p a, w')
    | (Thrown t, w') => (Thrown t, w')
    | (NoValue, w') => (NoValue, w')
    end.
Proof.
  intros Hne. unfold processRun.
  destruct (data_sources os run) as [|src rest] eqn:Hsrc; [done|].
  unfold bind at 1. unfold emit at 1. fold (after w [SetCeTokenEnvVar run]).
  unfold bind at 1.
  destruct (source_loop _ _ _ _ _ _ _ _ _ _) as [[[]| | | | |] w']; try done.
  cbn [negb]. unfold bind, emit, exit, stop. rewrite print_services_spec.
  unfold after. cbn. by rewrite <- !app_assoc.
Qed.

Lemma processRun_empty w :
  data_sources os run = [] →
  dispatch w = (Returned tt, after w [Cerr (no_source_message run)]).
Proof. intros Hnone. unfold processRun. by rewrite Hnone. Qed.

(** The loop at the first source that does not fail transiently. *)
Lemma loop_reaches pre src post w :
  (∀ i, (i < length pre)%nat →
        transient_failure (status os (spawned w + i))) →
  loop (pre ++ src :: post) false (after w [SetCeTokenEnvVar run])
  = loop (src :: post) false
         (World (trace w ++ SetCeTokenEnvVar run :: attempts pre)
                (spawned w + length pre)).
Proof.
  intros Hpre. rewrite source_loop_transient by done.
  unfold after. cbn. by rewrite <- app_assoc.
Qed.

Lemma processRun_success pre src post w :
  data_sources os run = pre ++ src :: post →
  (∀ i, (i < length pre)%nat →
        transient_failure (status os (spawned w + i))) →
  succeeded (status os (spawned w + length pre)) →
  dispatch w
  = (Returned tt,
     World (trace w ++ SetCeTokenEnvVar run :: attempts pre
                    ++ [RunChild (child src); LOG 2 (success_log run)])
           (S (spawned w + length pre))).
Proof.
  intros Hsrc Hpre Hok.
  rewrite processRun_nonempty by (rewrite Hsrc; by destruct pre).
  rewrite Hsrc, loop_reaches by done. cbn [source_loop].
  unfold bind at 1. rewrite processSource_success by done.
  unfold ret, after, started. cbn. by rewrite <- !app_assoc.
Qed.

Lemma processRun_tool_failure pre src post w :
  data_sources os run = pre ++ src :: post →
  (∀ i, (i < length pre)%nat →
        transient_failure (status os (spawned w + i))) →
  tool_failure (status os (spawned w + length pre)) →
  dispatch w
  = (Exited (exit_code (status os (spawned w + length pre))),
     World (trace w ++ SetCeTokenEnvVar run :: attempts pre
                    ++ [RunChild (child src);
                        Cerr (quit_message toolname
                                (pid os (spawned w + length pre))
                                (exit_code (status os (spawned w + length pre))))])
           (S (spawned w + length pre))).
Proof.
  intros Hsrc Hpre Hok.
  rewrite processRun_nonempty by (rewrite Hsrc; by destruct pre).
  rewrite Hsrc, loop_reaches by done. cbn [source_loop].
  unfold bind at 1. rewrite processSource_tool_failure by done.
  unfold after, started. cbn. by rewrite <- !app_assoc.
Qed.

Lemma processRun_killed pre src post w :
  data_sources os run = pre ++ src :: post →
  (∀ i, (i < length pre)%nat →
        transient_failure (status os (spawned w + i))) →
  killed (status os (spawned w + length pre)) →
  dispatch w
  = (Aborted,
     World (trace w ++ SetCeTokenEnvVar run :: attempts pre
                    ++ [RunChild (child src);
                        Cerr (killed_message toolname
                                (pid os (spawned w + length pre))
                                (termsig (status os (spawned w + length pre))));
                        Cerr [Endl]])
           (S (spawned w + length pre))).
Proof.
  intros Hsrc Hpre Hok.
  rewrite processRun_nonempty by (rewrite Hsrc; by destruct pre).
  rewrite Hsrc, loop_reaches by done. cbn [source_loop].
  unfold bind at 1. rewrite processSource_killed by done.
  unfold after, started. cbn. by rewrite <- !app_assoc.
Qed.

Lemma processRun_exhausted w :
  data_sources os run ≠ [] →
  (∀ i, (i < length (data_sources os run))%nat →
        transient_failure (status os (spawned w + i))) →
  dispatch w
  = (Exited EX_TEMPFAIL,
     World (trace w ++ SetCeTokenEnvVar run :: attempts (data_sources os run)
                    ++ [Cerr (tried_message run)]
                    ++ ((λ i, Cerr (service_line i)) <$> data_sources os run)
                    ++ [Cerr retry_later_message])
           (spawned w + length (data_sources os run))).
Proof.
  intros Hne Hall. rewrite processRun_nonempty by done.
  rewrite <- (app_nil_r (data_sources os run)) at 1.
  rewrite source_loop_transient by done.
  cbn [source_loop]. unfold ret, after. cbn. by rewrite <- !app_assoc.
Qed.

Lemma children_run_trace t pre events :
  children (t ++ SetCeTokenEnvVar run :: attempts pre ++ events)
  = children t ++ (child <$> pre) ++ children events.
Proof.
  rewrite children_app.
  change (SetCeTokenEnvVar run :: attempts pre ++ events)
    with ([SetCeTokenEnvVar run] ++ attempts pre ++ events).
  by rewrite !children_app, children_attempts.
Qed.

Lemma cerr_lines_run_trace t pre events :
  cerr_lines (t ++ SetCeTokenEnvVar run :: attempts pre ++ events)
  = cerr_lines t ++ cerr_lines events.
Proof.
  rewrite cerr_lines_app.
  change (SetCeTokenEnvVar run :: attempts pre ++ events)
    with ([SetCeTokenEnvVar run] ++ attempts pre ++ events).
  by rewrite !cerr_lines_app, cerr_lines_attempts.
Qed.

End Run.

End SupervisorFacts.

(** ** Claims on the supervisor and the dispatcher *)

(** C1. The supervisor starts one child and classifies how it ended: exit
    code 0 is success; EX_TEMPFAIL is a transient failure, and the caller
    goes on to the next source; any other exit code prints the tool name,
    the pid and the code and exits with that code; a signal prints the tool
    name, the pid and the signal and aborts.  In the last two cases no
    further source is tried.  What is printed is given token by token, and
    the children by the fields of their records. *)
Theorem supervisor_classification :
  (∀ os run toolname c w,
      let r := status os (spawned w) in
      let outcome := processSource os run toolname c w in
      let started := World (trace w ++ [RunChild c]) (S (spawned w)) in
      (succeeded r →
       outcome
       = (Returned true,
          World (trace started
                 ++ [LOG 2 [Str "Successfully processed "; Str run; Endl]])
                (spawned started)))
      ∧ (transient_failure r → outcome = (Returned false, started))
      ∧ (tool_failure r →
         outcome
         = (Exited (exit_code r),
            World (trace started
                   ++ [Cerr [Str toolname; Str " (PID ";
                             Num (pid os (spawned w));
                             Str ") quit with error code ";
                             Num (exit_code r); Endl]])
                  (spawned started)))
      ∧ (killed r →
         outcome
         = (Aborted,
            World (trace started
                   ++ [Cerr [Str toolname; Str " (PID ";
                             Num (pid os (spawned w));
                             Str ") was killed (signal ";
                             Num (termsig r); Str ")"];
                       Cerr [Endl]])
                  (spawned started))))
  ∧ (∀ os run extension toolname toolpath parameters outputFile w pre src post,
      data_sources os run = pre ++ src :: post →
      (∀ i, (i < length pre)%nat →
            transient_failure (status os (spawned w + i))) →
      let n := (spawned w + length pre)%nat in
      let r := status os n in
      let child := λ source,
        ChildCode toolname toolpath source
                  (rewrite_output parameters outputFile run extension) run in
      let final :=
        processRun os run extension toolname toolpath parameters outputFile w in
      (tool_failure r →
       final.1 = Exited (exit_code r)
       ∧ children (trace final.2) = children (trace w) ++ (child <$> pre ++ [src])
       ∧ child_source <$> children (trace final.2)
         = (child_source <$> children (trace w)) ++ pre ++ [src]
       ∧ spawned final.2 = (spawned w + length pre + 1)%nat
       ∧ cerr_lines (trace final.2)
         = cerr_lines (trace w)
           ++ [[Str toolname; Str " (PID "; Num (pid os n);
                Str ") quit with error code "; Num (exit_code r); Endl]])
      ∧ (killed r →
         final.1 = Aborted
         ∧ children (trace final.2)
           = children (trace w) ++ (child <$> pre ++ [src])
         ∧ child_source <$> children (trace final.2)
           = (child_source <$> children (trace w)) ++ pre ++ [src]
         ∧ spawned final.2 = (spawned w + length pre + 1)%nat
         ∧ cerr_lines (trace final.2)
           = cerr_lines (trace w)
             ++ [[Str toolname; Str " (PID "; Num (pid os n);
                  Str ") was killed (signal "; Num (termsig r); Str ")"];
                 [Endl]])).
Proof.
  split.
  - intros os run toolname c w r outcome started. subst r outcome started.
    repeat split; intros H.
    + by apply processSource_success.
    + by apply processSource_transient.
    + by apply processSource_tool_failure.
    + by apply processSource_killed.
  - intros os run extension toolname toolpath parameters outputFile w pre src
      post Hsrc Hpre n r child final. subst n r final.
    assert (∀ l : list source, child_source <$> (child <$> l) = l) as Hsources.
    { induction l as [|s l IH]; [done|]. cbn. by rewrite IH. }
    split; intros Hr.
    + rewrite (processRun_tool_failure _ _ _ _ _ _ _ pre src post) by done.
      cbn [fst snd trace spawned]. split; [done|].
      rewrite children_run_trace, cerr_lines_run_trace.
      change (source_child run extension toolname toolpath parameters
                outputFile) with child.
      change (children [RunChild (child src); Cerr ?m]) with [child src].
      split; [by rewrite fmap_app|].
      split; [by rewrite !fmap_app, Hsources|].
      split; [lia|done].
    + rewrite (processRun_killed _ _ _ _ _ _ _ pre src post) by done.
      cbn [fst snd trace spawned]. split; [done|].
      rewrite children_run_trace, cerr_lines_run_trace.
      change (source_child run extension toolname toolpath parameters
                outputFile) with child.
      change (children [RunChild (child src); Cerr ?m; Cerr ?m'])
        with [child src].
      split; [by rewrite fmap_app|].
      split; [by rewrite !fmap_app, Hsources|].
      split; [lia|done].
Qed.

(** C2. The sources of a run are tried in the order the resolver gave, up
    to the first success: when the sources before [src] fail transiently and
    [src] succeeds, exactly those and [src] are started, in order, and the
    run ends well.  When every source fails transiently every one is
    started once, the label of each is printed, and the process exits with
    EX_TEMPFAIL.  The children are given by the fields of their records and
    the lines written to standard error token by token. *)
Theorem sources_tried_in_order :
  (∀ os run extension toolname toolpath parameters outputFile w pre src post,
      data_sources os run = pre ++ src :: post →
      (∀ i, (i < length pre)%nat →
            transient_failure (status os (spawned w + i))) →
      succeeded (status os (spawned w + length pre)) →
      let child := λ source,
        ChildCode toolname toolpath source
                  (rewrite_output parameters outputFile run extension) run in
      let final :=
        processRun os run extension toolname toolpath parameters outputFile w in
      final.1 = Returned tt
      ∧ children (trace final.2) = children (trace w) ++ (child <$> pre ++ [src])
      ∧ child_source <$> children (trace final.2)
        = (child_source <$> children (trace w)) ++ pre ++ [src]
      ∧ spawned final.2 = (spawned w + length pre + 1)%nat
      ∧ cerr_lines (trace final.2) = cerr_lines (trace w))
  ∧ (∀ os run extension toolname toolpath parameters outputFile w,
      data_sources os run ≠ [] →
      (∀ i, (i < length (data_sources os run))%nat →
            transient_failure (status os (spawned w + i))) →
      let child := λ source,
        ChildCode toolname toolpath source
                  (rewrite_output parameters outputFile run extension) run in
      let final :=
        processRun os run extension toolname toolpath parameters outputFile w in
      final.1 = Exited 75
      ∧ children (trace final.2)
        = children (trace w) ++ (child <$> data_sources os run)
      ∧ child_source <$> children (trace final.2)
        = (child_source <$> children (trace w)) ++ data_sources os run
      ∧ spawned final.2 = (spawned w + length (data_sources os run))%nat
      ∧ cerr_lines (trace final.2)
        = cerr_lines (trace w)
          ++ [[Str "Could not get any data for "; Str run;
               Str ", tried to get data from:"; Endl]]
          ++ ((λ source, [Str (String (ascii_of_nat 9) "");
                          Str (service source); Endl])
              <$> data_sources os run)
          ++ [[Str "This may be temporary, you should retry later."; Endl]]).
Proof.
  assert (∀ (child : source → child_code) (l : list source),
             (∀ s, child_source (child s) = s) →
             child_source <$> (child <$> l) = l) as Hsources.
  { intros child l Hchild. induction l as [|s l IH]; [done|].
    cbn. by rewrite IH, Hchild. }
  split.
  - intros os run extension toolname toolpath parameters outputFile w pre src
      post Hsrc Hpre Hok child final. subst final.
    rewrite (processRun_success _ _ _ _ _ _ _ pre src post) by done.
    cbn [fst snd trace spawned].
    rewrite children_run_trace, cerr_lines_run_trace.
    change (source_child run extension toolname toolpath parameters
              outputFile) with child.
    change (children [RunChild (child src); LOG 2 ?m]) with [child src].
    change (cerr_lines [RunChild (child src); LOG 2 ?m])
      with (@nil (list token)).
    rewrite app_nil_r.
    split; [done|]. split; [by rewrite fmap_app|].
    split; [by rewrite !fmap_app, Hsources|]. split; [lia|done].
  - intros os run extension toolname toolpath parameters outputFile w Hne Hall
      child final. subst final.
    rewrite processRun_exhausted by done. cbn [fst snd trace spawned].
    rewrite children_run_trace, cerr_lines_run_trace.
    change (source_child run extension toolname toolpath parameters
              outputFile) with child.
    rewrite !children_app, children_service_lines.
    change (children [Cerr (tried_message run)]) with (@nil child_code).
    change (children [Cerr retry_later_message]) with (@nil child_code).
    rewrite !cerr_lines_app, cerr_lines_service_lines.
    cbn [app]. rewrite app_nil_r.
    split; [done|]. split; [done|].
    split; [by rewrite !fmap_app, Hsources|]. split; [done|]. done.
Qed.

Lemma supervisor_classification_witness :
  let final :=
    processRun os_tool_error "SRR000001" ".fastq" "fasterq-dump"
               "/usr/bin/fasterq-dump-orig" [] None world0 in
  final.1 = Exited 3
  ∧ children (trace final.2)
    = [ChildCode "fasterq-dump" "/usr/bin/fasterq-dump-orig" (Source "A") []
                 "SRR000001";
       ChildCode "fasterq-dump" "/usr/bin/fasterq-dump-orig" (Source "B") []
                 "SRR000001"]
  ∧ child_source <$> children (trace final.2) = [Source "A"; Source "B"]
  ∧ spawned final.2 = 2%nat
  ∧ cerr_lines (trace final.2)
    = [[Str "fasterq-dump"; Str " (PID "; Num 4002;
        Str ") quit with error code "; Num 3; Endl]].
Proof.
  refine (proj1 (proj2 supervisor_classification
            os_tool_error "SRR000001" ".fastq" "fasterq-dump"
            "/usr/bin/fasterq-dump-orig" [] None world0
            [Source "A"] (Source "B") [Source "C"] eq_refl _) _).
  - intros [|i] Hi; [split; reflexivity | cbn in Hi; lia].
  - repeat split; discriminate.
Defined.

Lemma sources_tried_in_order_witness :
  let final :=
    processRun os_fallback "SRR000001" ".fastq" "fasterq-dump"
               "/usr/bin/fasterq-dump-orig" [] None world0 in
  final.1 = Returned tt
  ∧ children (trace final.2)
    = [ChildCode "fasterq-dump" "/usr/bin/fasterq-dump-orig" (Source "A") []
                 "SRR000001";
       ChildCode "fasterq-dump" "/usr/bin/fasterq-dump-orig" (Source "B") []
                 "SRR000001"]
  ∧ child_source <$> children (trace final.2) = [Source "A"; Source "B"]
  ∧ spawned final.2 = 2%nat
  ∧ cerr_lines (trace final.2) = [].
Proof.
  refine (proj1 sources_tried_in_order
            os_fallback "SRR000001" ".fastq" "fasterq-dump"
            "/usr/bin/fasterq-dump-orig" [] None world0
            [Source "A"] (Source "B") [] eq_refl _ _).
  - intros [|i] Hi; [split; reflexivity | cbn in Hi; lia].
  - split; reflexivity.
Defined.

(** ** The run without sources *)

(** C6 as stated fails: a run without sources does not end the process. *)
Lemma empty_sources_do_not_terminate :
  ¬ empty_sources_terminate os_gap "SRR000001" ".fastq" "fasterq-dump"
      "/usr/bin/fasterq-dump-orig" [] None.
Proof. intros Hstop. specialize (Hstop eq_refl world0). discriminate Hstop. Qed.

(** After a run without sources the dispatcher goes on: here the second run
    is processed and the process exits with 0. *)
Lemma dispatcher_continues_after_empty_sources :
  let final :=
    processAccessions os_gap "fasterq-dump" "/usr/bin/fasterq-dump-orig"
                      (Some "--outfile") ".fastq" []
                      ["SRR000001"; "SRR000002"] world0 in
  final.1 = Exited 0
  ∧ children (trace final.2)
    = [source_child "SRR000002" ".fastq" "fasterq-dump"
                    "/usr/bin/fasterq-dump-orig" [] None (Source "ncbi")]
  ∧ cerr_lines (trace final.2) = [no_source_message "SRR000001"].
Proof. vm_compute. repeat split. Qed.

(** C6, as the code has it.  For a run without sources the dispatcher
    prints that there is no accessible source, starts no child and returns;
    the loop over the runs goes on with the next run. *)
Theorem empty_sources_skip_run
    (os : env) (run extension toolname toolpath : string)
    (parameters : ParamList) (outputFile : option nat)
    (rest : list string) (w : world) :
  data_sources os run = [] →
  processRun os run extension toolname toolpath parameters outputFile w
  = (Returned tt,
     after w [Cerr [Str "Could not get any data for "; Str run;
                    Str ", there is no accessible source."; Endl]])
  ∧ run_loop os (run :: rest) extension toolname toolpath parameters outputFile
             w
    = run_loop os rest extension toolname toolpath parameters outputFile
               (after w [LOG 3 [Str "Processing "; Str run; Str " ..."; Endl];
                         Cerr [Str "Could not get any data for "; Str run;
                               Str ", there is no accessible source."; Endl]]).
Proof.
  intros Hnone.
  assert (processRun os run extension toolname toolpath parameters outputFile
          = (λ w, (Returned tt, after w [Cerr (no_source_message run)])))
    as Hrun.
  { unfold processRun. by rewrite Hnone. }
  split; [by rewrite Hrun|].
  cbn [run_loop]. rewrite Hrun. unfold bind, emit, after. cbn.
  by rewrite <- app_assoc.
Qed.

Lemma empty_sources_skip_run_witness :
  processRun os_gap "SRR000001" ".fastq" "fasterq-dump"
             "/usr/bin/fasterq-dump-orig" [] None world0
  = (Returned tt,
     World [Cerr [Str "Could not get any data for "; Str "SRR000001";
                  Str ", there is no accessible source."; Endl]] 0).
Proof.
  exact (proj1 (empty_sources_skip_run
                  os_gap "SRR000001" ".fastq" "fasterq-dump"
                  "/usr/bin/fasterq-dump-orig" [] None ["SRR000002"] world0
                  eq_refl)).
Defined.

(** ** The scan for the unsafe output parameter *)

Section ScanFacts.

Lemma print_output_files_spec runs extension w :
  print_output_files runs extension w
  = (Returned tt,
     after w ((λ run, Cout [Str tab; Str run; Str extension; Endl]) <$> runs)).
Proof.
  revert w. induction runs as [|run rest IH]; intros w.
  - by rewrite after_nil.
  - cbn [print_output_files]. unfold bind, emit. rewrite IH.
    unfold after. cbn. by rewrite <- app_assoc.
Qed.

Lemma print_unsafe_output_file_message_returns runs toolname extension w :
  ∃ w', print_unsafe_output_file_message runs toolname extension w
        = (Returned tt, w').
Proof.
  unfold print_unsafe_output_file_message, bind, emit.
  rewrite print_output_files_spec. by eexists.
Qed.

Lemma find_output_file_valued name runs toolname extension parameters i w :
  Forall (carries_value name) parameters →
  ∃ found w',
    find_output_file name runs toolname extension parameters i w
    = (Returned found, w').
Proof.
  revert i. induction parameters as [|[first second] rest IH]; intros i Hall.
  - by exists None, w.
  - apply Forall_cons in Hall as [Hentry Hall]. cbn [find_output_file].
    destruct (String.eqb_spec first name) as [Heq|Hne]; [|by apply IH].
    destruct (Hentry Heq) as [value Hvalue]. cbn in Hvalue. subst second.
    destruct (String.eqb value "/dev/null"); cbn [negb]; [by apply IH|].
    unfold bind.
    destruct (print_unsafe_output_file_message_returns runs toolname
                extension w) as [w' ->].
    by exists (Some i), w'.
Qed.

Lemma find_output_file_valueless name runs toolname extension pre post i w :
  Forall (no_match name) pre →
  find_output_file name runs toolname extension
                   (pre ++ (name, None) :: post) i w
  = (NoValue, w).
Proof.
  revert i. induction pre as [|[first second] pre IH]; intros i Hpre.
  - cbn. by rewrite String.eqb_refl.
  - apply Forall_cons in Hpre as [Hentry Hpre]. cbn [app find_output_file].
    destruct (String.eqb_spec first name) as [Heq|Hne]; [|by apply IH].
    destruct (Hentry Heq) as [Hnone|Hnull]; cbn in *; subst second; [done|].
    cbn. by apply IH.
Qed.

End ScanFacts.

(** C10. With more than one run and an unsafe output parameter name given,
    the scan of the parameters calls [value()] on every entry of that name
    it reaches, whether the entry has a value or not.  If every entry of
    that name carries a value the scan ends well; an entry of that name
    without a value, not preceded by a match, is not guarded: the call is
    made on it, and nothing is dispatched. *)
Theorem unsafe_output_scan_needs_value :
  (∀ name runs toolname extension parameters w,
      Forall (carries_value name) parameters →
      ∃ found w',
        find_output_file name runs toolname extension parameters 0 w
        = (Returned found, w'))
  ∧ (∀ name runs toolname extension pre post w,
      Forall (no_match name) pre →
      find_output_file name runs toolname extension
                       (pre ++ (name, None) :: post) 0 w
      = (NoValue, w))
  ∧ (∀ os toolname toolpath name extension pre post accessions w runs w',
      expandAll os accessions w = (Returned runs, w') →
      (1 < length runs)%nat →
      Forall (no_match name) pre →
      processAccessions os toolname toolpath (Some name) extension
                        (pre ++ (name, None) :: post) accessions w
      = (NoValue, w')).
Proof.
  split; [|split].
  - intros. by apply find_output_file_valued.
  - intros. by apply find_output_file_valueless.
  - intros os toolname toolpath name extension pre post accessions w runs w'
      Hruns Hmany Hpre.
    destruct accessions as [|acc rest].
    { rewrite expandAll_spec in Hruns. cbn in Hruns.
      injection Hruns as <- <-. cbn in Hmany. lia. }
    unfold processAccessions. unfold bind at 1. rewrite Hruns.
    unfold bind at 1. apply Nat.ltb_lt in Hmany. rewrite Hmany.
    by rewrite find_output_file_valueless.
Qed.

Lemma unsafe_output_scan_needs_value_witness :
  processAccessions os_bare "fasterq-dump" "/usr/bin/fasterq-dump-orig"
                    (Some "--outfile") ".fastq"
                    [("--threads", Some "4"); ("--outfile", None)]
                    ["SRR000001"; "SRR000002"] world0
  = (NoValue, world0).
Proof.
  refine (proj2 (proj2 unsafe_output_scan_needs_value)
            os_bare "fasterq-dump" "/usr/bin/fasterq-dump-orig" "--outfile"
            ".fastq" [("--threads", Some "4")] [] ["SRR000001"; "SRR000002"]
            world0 ["SRR000001"; "SRR000002"] world0 eq_refl _ _).
  - cbn. lia.
  - constructor; [|constructor]. intros Hname. discriminate Hname.
Defined.

(** ** The model at work *)

Example scan_five_digits : SRA_AccessionType "SRR12345" = Some 0.
Proof. reflexivity. Qed.

Example scan_six_digits : category "SRR123456" = Some Run.
Proof. reflexivity. Qed.

Example scan_nine_digits : category "ERX123456789" = Some Container.
Proof. reflexivity. Qed.

Example scan_ten_digits : SRA_AccessionType "DRP1234567890" = Some 0.
Proof. reflexivity. Qed.

Example scan_versioned : SRA_AccessionType "SRR123456.2" = Some (char_code "R").
Proof. reflexivity. Qed.

Example scan_lower_case : category "srr123456" = Some Unrecognized.
Proof. reflexivity. Qed.

(** The scanner itself tells a submitter accession from a string outside the
    grammar: it returns the letter.  The expander has no case for it. *)
Example scan_submitter : SRA_AccessionType "SRA000001" = Some (char_code "A").
Proof. reflexivity. Qed.

(** Inside the loop a container accession is pushed onto [result] like any
    other; the list is dropped when the process exits. *)
Example container_pushed_then_dropped :
  ∃ s w,
    expand_loop os_bare ["SRP000001"] (ExpandState [] ∅ false) world0
    = (Returned s, w)
    ∧ result s = ["SRP000001"] ∧ failed s = true
    ∧ (expandAll os_bare ["SRP000001"] world0).1 = Exited EX_UNAVAILABLE.
Proof.
  rewrite expand_loop_spec, expandAll_spec. do 2 eexists.
  split; [reflexivity|]. by vm_compute.
Qed.

(** Two runs into one output file: the notice is printed first, and each
    child gets the parameter rewritten for its run. *)
Example output_file_rewritten_per_run :
  let final :=
    processAccessions os_fallback "fasterq-dump" "/usr/bin/fasterq-dump-orig"
                      (Some "--outfile") ".fastq"
                      [("--threads", Some "4"); ("--outfile", Some "out.fastq")]
                      ["SRR000001"; "SRR000002"] world0 in
  final.1 = Exited 0
  ∧ child_parameters <$> children (trace final.2)
    = [[("--threads", Some "4"); ("--outfile", Some "SRR000001.fastq")];
       [("--threads", Some "4"); ("--outfile", Some "SRR000001.fastq")];
       [("--threads", Some "4"); ("--outfile", Some "SRR000002.fastq")]].
Proof. vm_compute. by split. Qed.

(** ** More on the scanner *)

Module ScannerFacts.
Import Classifier.

Lemma scan_char_state s i s' :
  0 <= st s <= 3 → scan_char s i = Next s' → 0 <= st s' <= 3.
Proof.
  destruct s as [n t d]. cbn [st]. intros Hn.
  assert (n = 0 ∨ n = 1 ∨ n = 2 ∨ n = 3) as [->|[->|[->| ->]]] by lia.
  all: unfold scan_char; cbn [st type digits];
    repeat match goal with
      | |- context [if ?b then _ else _] => destruct b
      end; intros [= <-]; cbn; lia.
Qed.

Lemma scan_char_dot s :
  0 <= st s <= 3 →
  scan_char s "." = Return 0 ∨ scan_char s "." = Done s.
Proof.
  destruct s as [n t d]. cbn [st]. intros Hn.
  assert (n = 0 ∨ n = 1 ∨ n = 2 ∨ n = 3) as [->|[->|[->| ->]]] by lia;
    unfold scan_char; cbn; auto.
Qed.

(** The characters after the first dot are never looked at. *)
Lemma scan_dot_suffix s a b b' :
  0 <= st s <= 3 →
  scan_from s (a +:+ String "." b) = scan_from s (a +:+ String "." b').
Proof.
  revert s. induction a as [|c a IH]; intros s Hs.
  - change ("" +:+ String "." b) with (String "." b).
    change ("" +:+ String "." b') with (String "." b').
    cbn [scan_from]. by destruct (scan_char_dot s Hs) as [-> | ->].
  - change (String c a +:+ String "." b) with (String c (a +:+ String "." b)).
    change (String c a +:+ String "." b')
      with (String c (a +:+ String "." b')).
    cbn [scan_from]. destruct (scan_char s c) as [s'| | |] eqn:Hstep; try done.
    apply IH. by eapply scan_char_state.
Qed.

(** Whatever the scanner accepts after the prefix is a digit run of the
    right length, ending the string or followed by a dot. *)
Lemma scan_digits_complete t d rest v :
  scan_from (Scan 3 t d) rest = Some v → v ≠ 0 →
  ∃ ds tail,
    rest = ds +:+ tail ∧ all_digits ds = true ∧ terminated tail
    ∧ in_range (d + digit_count ds) = true ∧ v = t.
Proof.
  revert d. induction rest as [|c rest IH]; intros d Hscan Hv.
  - exists "", "". cbn in Hscan. unfold finish in Hscan.
    cbn [digits type] in Hscan. unfold in_range, terminated, digit_count.
    cbn. rewrite Z.add_0_r.
    destruct (_ && _)%bool; [|congruence].
    repeat split; auto; congruence.
  - cbn [scan_from] in Hscan. unfold scan_char in Hscan.
    cbn [st type digits] in Hscan.
    destruct (Ascii.eqb_spec c "."%char) as [->|Hdot].
    + exists "", (String "." rest). unfold finish in Hscan.
      cbn [digits type] in Hscan. unfold in_range, terminated, digit_count.
      cbn. rewrite Z.add_0_r.
      destruct (_ && _)%bool; [|congruence].
      repeat split; eauto; congruence.
    + destruct (is_digit c) eqn:Hc; cbn [negb] in Hscan; [|congruence].
      destruct (IH _ Hscan Hv) as (ds & tail & -> & Hds & Htail & Hrange & ->).
      exists (String c ds), tail. repeat split; try done.
      * cbn. by rewrite Hc, Hds.
      * rewrite <- Hrange. f_equal. unfold digit_count. cbn [String.length].
        lia.
Qed.

Lemma scan_short query v :
  (String.length query < 3)%nat → scan_from scan0 query = Some v → v = 0.
Proof.
  destruct query as [|c0 [|c1 [|c2 rest]]]; cbn [String.length];
    [| | |lia]; intros _.
  - cbn. congruence.
  - cbn [scan_from]. unfold scan_char. cbn [st scan0].
    destruct (_ || _)%bool; cbn; congruence.
  - cbn [scan_from]. unfold scan_char at 1. cbn [st scan0].
    destruct (_ || _)%bool; [|congruence].
    change (0 + 1) with 1. unfold scan_char. cbn [st type digits].
    destruct (negb _); cbn; congruence.
Qed.

Lemma scan_complete query v :
  scan_from scan0 query = Some v → v ≠ 0 →
  ∃ c0 c1 c2 ds tail,
    query = accession c0 c1 c2 (ds +:+ tail)
    ∧ valid_prefix c0 c1 c2 ∧ all_digits ds = true ∧ terminated tail
    ∧ in_range (digit_count ds) = true ∧ v = char_code c2.
Proof.
  intros Hscan Hv.
  destruct query as [|c0 [|c1 [|c2 rest]]];
    try (exfalso; apply Hv; eapply scan_short; [|exact Hscan]; cbn; lia).
  fold (accession c0 c1 c2 rest) in Hscan.
  destruct (ClassifierFacts.valid_prefix_dec c0 c1 c2) as [Hp|Hp].
  - rewrite ClassifierFacts.scan_prefix in Hscan by done.
    destruct (scan_digits_complete _ _ _ _ Hscan Hv)
      as (ds & tail & -> & Hds & Htail & Hrange & ->).
    rewrite Z.add_0_l in Hrange. by exists c0, c1, c2, ds, tail.
  - rewrite ClassifierFacts.scan_bad_prefix in Hscan by done. congruence.
Qed.

Lemma append_length a b :
  String.length (a +:+ b) = (String.length a + String.length b)%nat.
Proof.
  induction a as [|c a IH]; [done|].
  change (String c a +:+ b) with (String c (a +:+ b)). cbn. by rewrite IH.
Qed.

End ScannerFacts.

(** X1. The scanner accepts nothing outside the accession grammar: a result
    other than 0 is the third letter of a string made of a valid prefix and
    6 to 9 digits, ending there or at a dot.  Such a string has at least 9
    characters. *)
Theorem scanner_accepts_only_accessions (query : string) (v : Z) :
  SRA_AccessionType query = Some v → v ≠ 0 →
  (∃ c0 c1 c2 ds tail,
      query = accession c0 c1 c2 (ds +:+ tail)
      ∧ valid_prefix c0 c1 c2 ∧ all_digits ds = true ∧ terminated tail
      ∧ 6 <= digit_count ds <= 9 ∧ v = char_code c2)
  ∧ (9 <= String.length query)%nat.
Proof.
  intros Hscan Hv.
  destruct (ScannerFacts.scan_complete _ _ Hscan Hv)
    as (c0 & c1 & c2 & ds & tail & -> & Hp & Hds & Htail & Hrange & ->).
  unfold in_range in Hrange. apply andb_prop in Hrange as [Hlo Hhi].
  apply Z.leb_le in Hlo, Hhi. split.
  - exists c0, c1, c2, ds, tail. do 4 (split; [done|]). by split.
  - unfold accession. cbn [String.length].
    rewrite ScannerFacts.append_length. unfold digit_count in *. lia.
Qed.

Lemma scanner_accepts_only_accessions_witness :
  (∃ c0 c1 c2 ds tail,
      "ERR123456.3" = accession c0 c1 c2 (ds +:+ tail)
      ∧ valid_prefix c0 c1 c2 ∧ all_digits ds = true ∧ terminated tail
      ∧ 6 <= digit_count ds <= 9 ∧ 82 = char_code c2)
  ∧ (9 <= String.length "ERR123456.3")%nat.
Proof.
  apply (scanner_accepts_only_accessions "ERR123456.3" 82);
    [reflexivity | discriminate].
Defined.

(** X2. The scanner never reaches the assertion of its [default:] branch,
    and it returns 0 or the code of one of the five type letters. *)
Theorem scanner_result_range (query : string) :
  ∃ v, SRA_AccessionType query = Some v
       ∧ (v = 0 ∨ v = char_code "A" ∨ v = char_code "P" ∨ v = char_code "R"
          ∨ v = char_code "S" ∨ v = char_code "X").
Proof.
  destruct (SRA_AccessionType_total query) as [v Hv]. exists v.
  split; [done|]. destruct (decide (v = 0)) as [|Hne]; [by left|right].
  destruct (ScannerFacts.scan_complete _ _ Hv Hne)
    as (c0 & c1 & c2 & ds & tail & _ & (_ & _ & Ht) & _ & _ & _ & ->).
  destruct Ht as [->|[->|[->|[->| ->]]]]; auto 6.
Qed.

(** X3. What follows the first dot of a query has no effect on the result. *)
Theorem scanner_ignores_after_dot (name suffix suffix' : string) :
  SRA_AccessionType (name +:+ String "." suffix)
  = SRA_AccessionType (name +:+ String "." suffix').
Proof.
  unfold SRA_AccessionType. apply ScannerFacts.scan_dot_suffix. cbn. lia.
Qed.

(** ** Sequencing *)

Lemma bind_returns {A B} (m : M A) (k : A → M B) w a w' :
  m w = (Returned a, w') → bind m k w = k a w'.
Proof. intros Hm. unfold bind. by rewrite Hm. Qed.

Lemma bind_emit {B} (e : event) (k : unit → M B) w :
  bind (emit e) k w = k tt (after w [e]).
Proof. done. Qed.

(** ** The dry run *)

Section DryRunFacts.

Lemma char_code_inj c c' : char_code c = char_code c' → c = c'.
Proof.
  unfold char_code. intros H. apply N2Z.inj in H.
  by rewrite <- (ascii_N_embedding c), <- (ascii_N_embedding c'), H.
Qed.

Lemma c_str_at_end (s : string) :
  no_nul s = true → (c_str_at s 0 = 0 ↔ s = "").
Proof.
  destruct s as [|c rest]; [done|]. cbn. intros [Hc _]%andb_prop.
  apply negb_true_iff, Z.eqb_neq in Hc. split; [done|discriminate].
Qed.

Lemma dry_run_requested_iff (v : string) :
  no_nul v = true → dry_run_requested (Some v) = true ↔ v ≠ "" ∧ v ≠ "0".
Proof.
  intros Hv. destruct v as [|c rest]; [cbn; split; [done|tauto]|].
  pose proof Hv as [Hc Hrest]%andb_prop.
  apply negb_true_iff in Hc. unfold dry_run_requested.
  change (c_str_at (String c rest) 0) with (char_code c).
  change (c_str_at (String c rest) 1) with (c_str_at rest 0).
  rewrite Hc. cbn [negb andb]. rewrite negb_true_iff, andb_false_iff.
  rewrite !Z.eqb_neq, (c_str_at_end rest Hrest).
  split.
  - intros [Hne|Hne]; (split; [done|]); intros [= -> ->]; by apply Hne.
  - intros [_ Hne]. destruct (decide (rest = "")) as [->|]; [|by right].
    left. intros Heq. apply char_code_inj in Heq. by subst.
Qed.

Lemma print_parameters_returns parameters w :
  ∃ w', print_parameters parameters w = (Returned tt, w').
Proof.
  revert w. induction parameters as [|[first [v|]] rest IH]; intros w;
    [by eexists | |]; cbn [print_parameters]; unfold bind, emit, ret; cbn;
    apply IH.
Qed.

Lemma print_environment_returns getenv names w :
  ∃ w', print_environment getenv names w = (Returned tt, w').
Proof.
  revert w. induction names as [|name rest IH]; intros w; [by eexists|].
  cbn [print_environment]. unfold bind.
  destruct (getenv name); unfold emit, ret; cbn; apply IH.
Qed.

End DryRunFacts.

(** X4. The dry run is taken exactly when SRATOOLS_DRY_RUN is set to a
    value that is neither empty nor the single character 0.  When it is not
    taken nothing is printed and the child goes on to exec the tool; when it
    is taken the child exits with 0 instead. *)
Theorem dry_run_toggle :
  dry_run_requested None = false
  ∧ (∀ v, no_nul v = true →
          (dry_run_requested (Some v) = true ↔ v ≠ "" ∧ v ≠ "0"))
  ∧ (∀ os getenv names toolpath parameters run w,
        dry_run_requested (getenv "SRATOOLS_DRY_RUN") = false →
        debugPrintDryRun os getenv names toolpath parameters run w
        = (Returned tt, w))
  ∧ (∀ os getenv names toolpath parameters run w,
        dry_run_requested (getenv "SRATOOLS_DRY_RUN") = true →
        (debugPrintDryRun os getenv names toolpath parameters run w).1
        = Exited 0).
Proof.
  split; [done|]. split; [apply dry_run_requested_iff|]. split.
  - intros * Hoff. unfold debugPrintDryRun. by rewrite Hoff.
  - intros * Hon. unfold debugPrintDryRun. rewrite Hon, !bind_emit.
    destruct (print_parameters_returns parameters
                (after (after w [Cerr [Str "would exec '"; Str toolpath;
                                       Str ("' as:" +:+ newline)]])
                       [Cerr [Str (argv0 os)]])) as [w1 Hw1].
    rewrite (bind_returns _ _ _ _ _ Hw1), !bind_emit.
    destruct (print_environment_returns getenv names
                (after (after w1 [Cerr [Str " "; Str run; Endl]])
                       [Cerr [Str ("with environment:" +:+ newline)]]))
      as [w2 Hw2].
    by rewrite (bind_returns _ _ _ _ _ Hw2), bind_emit.
Qed.

Lemma dry_run_toggle_witness :
  (dry_run_requested (Some "00") = true ↔ "00" ≠ "" ∧ "00" ≠ "0")
  ∧ debugPrintDryRun os_bare (λ _, Some "0") ["VDB_CONFIG"]
      "/usr/bin/fasterq-dump-orig" [("--threads", Some "4")] "SRR000001" world0
    = (Returned tt, world0)
  ∧ (debugPrintDryRun os_bare (λ _, Some "yes") ["VDB_CONFIG"]
       "/usr/bin/fasterq-dump-orig" [("--threads", Some "4")] "SRR000001"
       world0).1 = Exited 0.
Proof.
  split; [|split].
  - exact (proj1 (proj2 dry_run_toggle) "00" eq_refl).
  - exact (proj1 (proj2 (proj2 dry_run_toggle)) os_bare (λ _, Some "0")
             ["VDB_CONFIG"] "/usr/bin/fasterq-dump-orig"
             [("--threads", Some "4")] "SRR000001" world0 eq_refl).
  - exact (proj2 (proj2 (proj2 dry_run_toggle)) os_bare (λ _, Some "yes")
             ["VDB_CONFIG"] "/usr/bin/fasterq-dump-orig"
             [("--threads", Some "4")] "SRR000001" world0 eq_refl).
Defined.

(** ** The per-run loop under any behaviour of the children *)

Lemma children_cerr_cons msg t : children (Cerr msg :: t) = children t.
Proof. done. Qed.

Section AnyChildren.

Context (os : env).

Lemma processSource_cases run toolname c w o w' :
  processSource os run toolname c w = (o, w') →
  spawned w' = S (spawned w)
  ∧ children (trace w') = children (trace w) ++ [c]
  ∧ match o with
    | Returned true => succeeded (status os (spawned w))
    | Returned false => transient_failure (status os (spawned w))
    | Exited code =>
        tool_failure (status os (spawned w))
        ∧ code = exit_code (status os (spawned w))
    | Aborted => exited (status os (spawned w)) = false
    | _ => False
    end.
Proof.
  destruct (exited (status os (spawned w))) eqn:He.
  - destruct (Z.eqb_spec (exit_code (status os (spawned w))) 0) as [H0|H0].
    { rewrite processSource_success by done. intros [= <- <-].
      unfold after, started. cbn. rewrite !children_app. cbn.
      by rewrite app_nil_r. }
    destruct (Z.eqb_spec (exit_code (status os (spawned w))) EX_TEMPFAIL)
      as [Ht|Ht].
    { rewrite processSource_transient by done. intros [= <- <-].
      unfold started. cbn. by rewrite children_app. }
    rewrite processSource_tool_failure by done. intros [= <- <-].
    unfold after, started. cbn. rewrite !children_app. cbn.
    by rewrite app_nil_r.
  - unfold processSource, bind, run_child. unfold status in He. cbn.
    rewrite He. destruct (signaled _); unfold bind, emit, abort, stop; cbn;
      intros [= <- <-]; cbn; rewrite ?children_app; cbn;
      by rewrite ?app_nil_r.
Qed.

Section Run.

Context (run extension toolname toolpath : string)
        (parameters : ParamList) (outputFile : option nat).

Local Abbreviation child :=
  (source_child run extension toolname toolpath parameters outputFile).
Local Abbreviation loop :=
  (source_loop os run extension toolname toolpath parameters outputFile).
Local Abbreviation dispatch :=
  (processRun os run extension toolname toolpath parameters outputFile).

Lemma source_loop_cases sources w o w' :
  loop sources false w = (o, w') →
  ∃ k, (k ≤ length sources)%nat
    ∧ spawned w' = (spawned w + k)%nat
    ∧ children (trace w') = children (trace w) ++ (child <$> take k sources)
    ∧ (∀ i, (S i < k)%nat → transient_failure (status os (spawned w + i)))
    ∧ loop_end os w sources k o.
Proof.
  revert w. induction sources as [|src rest IH]; intros w.
  - intros [= <- <-]. exists 0%nat. cbn.
    rewrite app_nil_r. repeat split; try lia.
  - cbn [source_loop]. unfold bind at 1.
    destruct (processSource os run toolname (child src) w) as [o1 w1] eqn:H1.
    apply processSource_cases in H1 as (Hsp & Hch & Hcase).
    destruct o1 as [[]| | | | |]; try done.
    + intros [= <- <-]. exists 1%nat. cbn [length take fmap list_fmap].
      rewrite take_0. unfold loop_end.
      replace (spawned w + 1 - 1)%nat with (spawned w) by lia.
      split; [lia|]. split; [lia|]. split; [done|].
      split; [intros; lia|]. by repeat (split; [lia|]).
    + rewrite bind_emit. intros Hrest. apply IH in Hrest
        as (k & Hk & Hspk & Hchk & Hpre & Hend).
      cbn [after trace spawned] in *.
      exists (S k). cbn [length take fmap list_fmap].
      rewrite Hspk, Hsp. rewrite Hchk, children_app, Hch.
      cbn. rewrite app_nil_r, <- app_assoc. cbn.
      split; [lia|]. split; [lia|]. split; [done|]. split.
      * intros [|i] Hi; [by rewrite Nat.add_0_r|].
        replace (spawned w + S i)%nat with (spawned w1 + i)%nat by lia.
        apply Hpre. lia.
      * unfold loop_end in *. cbn [after spawned] in Hend.
        rewrite Hsp in Hend.
        replace (spawned w + S k - 1)%nat with (S (spawned w) + k - 1)%nat
          by lia.
        destruct o as [[]| | | | |]; try done.
        -- split; [lia|]. apply Hend.
        -- destruct Hend as [-> Hall]. split; [done|].
           intros [|i] Hi; [by rewrite Nat.add_0_r|].
           replace (spawned w + S i)%nat with (S (spawned w) + i)%nat by lia.
           apply Hall. cbn in Hi. lia.
        -- split; [lia|]. apply Hend.
        -- split; [lia|]. apply Hend.
    + intros [= <- <-]. exists 1%nat. cbn [length take fmap list_fmap].
      rewrite take_0. unfold loop_end.
      replace (spawned w + 1 - 1)%nat with (spawned w) by lia.
      split; [lia|]. split; [lia|]. split; [done|].
      split; [intros; lia|]. by repeat (split; [lia|]).
    + intros [= <- <-]. exists 1%nat. cbn [length take fmap list_fmap].
      rewrite take_0. unfold loop_end.
      replace (spawned w + 1 - 1)%nat with (spawned w) by lia.
      split; [lia|]. split; [lia|]. split; [done|].
      split; [intros; lia|]. by repeat (split; [lia|]).
Qed.

Lemma processRun_cases w o w' :
  dispatch w = (o, w') →
  ∃ k, (k ≤ length (data_sources os run))%nat
    ∧ spawned w' = (spawned w + k)%nat
    ∧ children (trace w')
      = children (trace w) ++ (child <$> take k (data_sources os run))
    ∧ (∀ i, (S i < k)%nat → transient_failure (status os (spawned w + i)))
    ∧ run_end os w run k o.
Proof.
  destruct (decide (data_sources os run = [])) as [Hnil|Hne].
  - rewrite processRun_empty by done. intros [= <- <-]. exists 0%nat.
    unfold run_end. cbn. rewrite children_app. cbn.
    split; [lia|]. split; [lia|]. split; [done|]. split; [intros; lia|].
    by left.
  - rewrite processRun_nonempty by done.
    destruct (loop (data_sources os run) false
                (after w [SetCeTokenEnvVar run])) as [o1 w1] eqn:Hloop.
    apply source_loop_cases in Hloop as (k & Hk & Hsp & Hch & Hpre & Hend).
    cbn [after trace spawned] in Hsp, Hch, Hpre.
    rewrite children_app in Hch.
    change (children [SetCeTokenEnvVar run]) with (@nil child_code) in Hch.
    rewrite app_nil_r in Hch.
    unfold loop_end in Hend. cbn [after spawned] in Hend. unfold run_end.
    destruct o1 as [[]| | | | |]; try done; intros [= <- <-]; exists k.
    + split; [done|]. split; [done|]. split; [done|]. split; [done|].
      by right.
    + unfold after. cbn [trace spawned].
      rewrite children_app, children_cerr_cons, children_app.
      rewrite children_service_lines.
      change (children [Cerr retry_later_message]) with (@nil child_code).
      cbn [app]. rewrite app_nil_r.
      split; [done|]. split; [done|]. split; [done|]. split; [done|].
      left. destruct Hend as [-> Hall]. done.
    + split; [done|]. split; [done|]. split; [done|]. split; [done|].
      by right.
    + done.
Qed.

End Run.

End AnyChildren.


(** X6. How the processing of a run ends tells what happened.  It returns
    only if the run has no source or the last child started exited with 0.
    It exits with EX_TEMPFAIL only after every source has been tried and has
    failed transiently; with any other code only if that is the exit code of
    the last child; never with 0.  It aborts only if the last child did not
    exit.  It ends in no other way. *)
Theorem run_exit_status
    (os : env) (run extension toolname toolpath : string)
    (parameters : ParamList) (outputFile : option nat) (w : world) :
  let final :=
    processRun os run extension toolname toolpath parameters outputFile w in
  let k := (spawned final.2 - spawned w)%nat in
  let last := status os (spawned final.2 - 1) in
  (final.1 = Returned tt →
   data_sources os run = [] ∨ ((0 < k)%nat ∧ succeeded last))
  ∧ (final.1 = Exited EX_TEMPFAIL →
     data_sources os run ≠ [] ∧ k = length (data_sources os run)
     ∧ ∀ i, (i < k)%nat → transient_failure (status os (spawned w + i)))
  ∧ (∀ c, final.1 = Exited c → c ≠ EX_TEMPFAIL →
          (0 < k)%nat ∧ exited last = true ∧ exit_code last = c)
  ∧ final.1 ≠ Exited 0
  ∧ (final.1 = Aborted → (0 < k)%nat ∧ exited last = false)
  ∧ (∀ path argv, final.1 ≠ Execed path argv)
  ∧ (∀ what, final.1 ≠ Thrown what)
  ∧ final.1 ≠ NoValue.
Proof.
  intros final k last. subst k last. destruct final as [o w'] eqn:Hfinal.
  apply processRun_cases in Hfinal as (k & Hk & Hsp & Hch & Hpre & Hend).
  cbn [fst snd]. replace (spawned w' - spawned w)%nat with k by lia.
  rewrite Hsp. unfold run_end in Hend.
  destruct o as [[]|c| | | |]; try done.
  split_and!; try done.
  - intros [= ->].
    destruct Hend as [(_ & Hne & Hlen & Hall)|(_ & (_ & _ & Ht) & Hcode)];
      [done|congruence].
  - intros c' [= <-] Hc.
    destruct Hend as [(-> & _)|(Hpos & (He & _) & Hcode)]; done.
  - intros [= ->].
    destruct Hend as [(Habs & _)|(_ & (_ & H0 & _) & Hcode)];
      [discriminate Habs|congruence].
Qed.

(** ** The loop over the runs *)

Lemma rewrite_output_names parameters outputFile run extension :
  (rewrite_output parameters outputFile run extension).*1 = parameters.*1.
Proof.
  destruct outputFile as [i|]; [|done]. cbn.
  revert i. induction parameters as [|entry rest IH]; intros [|i]; cbn;
    try done. by rewrite IH.
Qed.

Lemma rewrite_output_found pre name value post run extension :
  rewrite_output (pre ++ (name, Some value) :: post) (Some (length pre))
                 run extension
  = pre ++ (name, Some (run +:+ extension)) :: post.
Proof.
  cbn. induction pre as [|entry pre IH]; [done|]. cbn. by rewrite IH.
Qed.

Section RunLoopFacts.

Context (os : env) (extension toolname toolpath : string)
        (parameters : ParamList) (outputFile : option nat).

Local Abbreviation loop :=
  (λ runs, run_loop os runs extension toolname toolpath parameters outputFile).
Local Abbreviation well_formed :=
  (well_formed_child os extension toolname toolpath parameters outputFile).

Lemma well_formed_prefix run rest k :
  Forall (well_formed (run :: rest))
    (source_child run extension toolname toolpath parameters outputFile
     <$> take k (data_sources os run)).
Proof.
  apply Forall_fmap, Forall_forall. intros src Hsrc.
  apply subseteq_take in Hsrc. unfold well_formed_child. cbn.
  split; [apply list_elem_of_here|]. by split.
Qed.

Lemma run_loop_cases runs w o w' :
  loop runs w = (o, w') →
  ∃ new,
    children (trace w') = children (trace w) ++ new
    ∧ spawned w' = (spawned w + length new)%nat
    ∧ Forall (well_formed runs) new
    ∧ match o with
      | Returned _ | Aborted => True
      | Exited c => c ≠ 0
      | _ => False
      end.
Proof.
  revert w. induction runs as [|run rest IH]; intros w.
  - intros [= <- <-]. exists []. rewrite app_nil_r. cbn.
    split; [done|]. split; [lia|]. by split.
  - cbn [run_loop]. rewrite bind_emit. unfold bind at 1.
    destruct (processRun os run extension toolname toolpath parameters
                outputFile (after w [LOG 3 (processing_log run)]))
      as [o1 w1] eqn:Hrun.
    apply processRun_cases in Hrun as (k & Hk & Hsp & Hch & _ & Hend).
    cbn [after trace spawned] in Hsp, Hch. rewrite children_app in Hch.
    change (children [LOG 3 (processing_log run)]) with (@nil child_code)
      in Hch.
    rewrite app_nil_r in Hch.
    assert (length (take k (data_sources os run)) = k) as Hlen
      by (rewrite length_take; lia).
    unfold run_end in Hend. cbn [after spawned] in Hend.
    destruct o1 as [[]|c| | | |]; try done.
    + intros Hrest. apply IH in Hrest as (new & Hnew & Hspn & Hwf & Ho).
      eexists. split; [by rewrite Hnew, Hch, <- app_assoc|].
      split; [rewrite Hspn, Hsp, length_app, length_fmap; lia|].
      split; [|done]. apply Forall_app. split; [apply well_formed_prefix|].
      eapply Forall_impl; [exact Hwf|]. intros c (Hc & ? & ?).
      split; [by apply list_elem_of_further|done].
    + intros [= <- <-]. eexists. split; [exact Hch|].
      split; [rewrite Hsp, length_fmap; lia|].
      split; [apply well_formed_prefix|].
      destruct Hend as [(-> & _)|(_ & (_ & H0 & _) & ->)]; done.
    + intros [= <- <-]. eexists. split; [exact Hch|].
      split; [rewrite Hsp, length_fmap; lia|].
      split; [apply well_formed_prefix|done].
Qed.

(** When every child succeeds each run is dispatched once, to its first
    source, and the loop returns. *)
Lemma run_loop_all_succeed runs w :
  all_children_succeed os →
  ∃ w',
    loop runs w = (Returned tt, w')
    ∧ children (trace w')
      = children (trace w)
        ++ first_source_children os extension toolname toolpath parameters
                                 outputFile runs.
Proof.
  intros Hall. revert w. induction runs as [|run rest IH]; intros w.
  - exists w. by rewrite app_nil_r.
  - cbn [run_loop]. rewrite bind_emit. unfold bind at 1.
    unfold first_source_children. cbn [mbind list_bind].
    fold (first_source_children os extension toolname toolpath parameters
            outputFile rest).
    destruct (data_sources os run) as [|src more] eqn:Hsrc.
    + rewrite processRun_empty by done.
      destruct (IH (after (after w [LOG 3 (processing_log run)])
                          [Cerr (no_source_message run)]))
        as (w' & Hloop & Hch).
      exists w'. split; [done|]. rewrite Hch. cbn.
      by rewrite !children_app, !app_nil_r.
    + rewrite (processRun_success _ _ _ _ _ _ _ [] src more)
        by (done || (intros; cbn in *; lia) || apply Hall).
      match goal with
      | |- context [run_loop _ _ _ _ _ _ _ ?w1] =>
          destruct (IH w1) as (w' & Hloop & Hch)
      end.
      exists w'. split; [done|]. rewrite Hch. cbn [trace after].
      rewrite !children_app. cbn. by rewrite !app_nil_r, <- !app_assoc.
Qed.

End RunLoopFacts.

(** ** The top level *)

Section TopLevelFacts.

Lemma print_unsafe_output_file_message_spec runs toolname extension w :
  print_unsafe_output_file_message runs toolname extension w
  = (Returned tt, after w (unsafe_output_notice runs toolname extension)).
Proof.
  unfold print_unsafe_output_file_message. rewrite bind_emit.
  by rewrite print_output_files_spec, after_after.
Qed.

(** The three ways the scan can end: nothing found, the first entry of the
    name with a value other than the discard path, or a fault on an entry
    of the name that has no value. *)
Lemma find_output_file_cases name runs toolname extension rest i w o w' :
  find_output_file name runs toolname extension rest i w = (o, w') →
  (o = Returned None ∧ w' = w ∧ Forall (discards name) rest)
  ∨ (∃ j v,
        o = Returned (Some (i + j)%nat)
        ∧ rest !! j = Some (name, Some v) ∧ v ≠ "/dev/null"
        ∧ Forall (discards name) (take j rest)
        ∧ w' = after w (unsafe_output_notice runs toolname extension))
  ∨ (o = NoValue ∧ w' = w ∧ (name, None) ∈ rest).
Proof.
  revert i o w'. induction rest as [|[first second] rest IH]; intros i o w'.
  - intros [= <- <-]. left. by repeat split.
  - cbn [find_output_file].
    assert (∀ o w', find_output_file name runs toolname extension rest (S i) w
                    = (o, w') →
      (first = name → second = Some "/dev/null") →
      (o = Returned None ∧ w' = w
       ∧ Forall (discards name) ((first, second) :: rest))
      ∨ (∃ j v,
            o = Returned (Some (i + j)%nat)
            ∧ ((first, second) :: rest) !! j = Some (name, Some v)
            ∧ v ≠ "/dev/null"
            ∧ Forall (discards name) (take j ((first, second) :: rest))
            ∧ w' = after w (unsafe_output_notice runs toolname extension))
      ∨ (o = NoValue ∧ w' = w ∧ (name, None) ∈ (first, second) :: rest))
      as Hnext.
    { intros o0 w0 Hrest Hentry.
      destruct (IH _ _ _ Hrest) as [(-> & -> & Hall)|[(j & v & -> & Hj & Hv & Hpre & ->)
                                                 |(-> & -> & Hin)]].
      - left. repeat split; try done. by constructor.
      - right; left. exists (S j), v. rewrite Nat.add_succ_r.
        repeat split; try done. cbn. by constructor.
      - right; right. repeat split; try done. by apply list_elem_of_further. }
    destruct (String.eqb_spec first name) as [->|Hne];
      [|intros Hrest; apply (Hnext _ _ Hrest); by intros ?].
    destruct second as [value|].
    + destruct (String.eqb_spec value "/dev/null") as [->|Hvalue]; cbn [negb].
      { intros Hrest. by apply (Hnext _ _ Hrest). }
      unfold bind. rewrite print_unsafe_output_file_message_spec.
      intros [= <- <-]. right; left. exists 0%nat, value.
      rewrite Nat.add_0_r. by repeat split.
    + intros [= <- <-]. right; right. repeat split; try done.
      apply list_elem_of_here.
Qed.

Context (os : env) (toolname toolpath : string)
        (unsafeOutputFileParamName : option string) (extension : string)
        (parameters : ParamList).

Local Abbreviation dispatch :=
  (processAccessions os toolname toolpath unsafeOutputFileParamName extension
                     parameters).

(** How the top level can end on a list of accessions that is not empty. *)
Lemma processAccessions_cases accessions w o w' :
  accessions ≠ [] → dispatch accessions w = (o, w') →
  let runs := first_occurrences accessions in
  (existsb (offending os) accessions = true ∧ o = Exited EX_UNAVAILABLE
   ∧ w' = after w (container_diagnostics (offenders os accessions)
                   ++ [Cerr expansion_unavailable_message]))
  ∨ (existsb (offending os) accessions = false
     ∧ ((∃ name, unsafeOutputFileParamName = Some name
                 ∧ (1 < length runs)%nat ∧ (name, None) ∈ parameters
                 ∧ o = NoValue ∧ w' = w)
        ∨ (∃ outputFile w1 o2 w2,
              scan_end unsafeOutputFileParamName runs toolname extension
                       parameters w outputFile w1
              ∧ run_loop os runs extension toolname toolpath parameters
                         outputFile w1 = (o2, w2)
              ∧ ((o2 = Returned tt ∧ o = Exited 0
                  ∧ w' = after w2 [LOG 1 all_processed_log])
                 ∨ (o2 ≠ Returned tt ∧ o = o2 ∧ w' = w2))))).
Proof.
  intros Hne Hrun runs. destruct accessions as [|acc rest]; [done|].
  unfold processAccessions in Hrun. unfold bind at 1 in Hrun.
  rewrite expandAll_spec in Hrun.
  destruct (existsb (offending os) (acc :: rest)) eqn:Hany.
  { injection Hrun as <- <-. by left. }
  right. split; [done|]. fold runs in Hrun. unfold bind at 1 in Hrun.
  assert (∀ outputFile w1,
    scan_end unsafeOutputFileParamName runs toolname extension parameters w
             outputFile w1 →
    (let (o0, w'0) :=
       run_loop os runs extension toolname toolpath parameters outputFile w1 in
     match o0 with
     | Returned _ => (emit (LOG 1 all_processed_log);; exit 0) w'0
     | Exited c => (Exited c, w'0)
     | Aborted => (Aborted, w'0)
     | Execed p a => (Execed p a, w'0)
     | Thrown s => (Thrown s, w'0)
     | NoValue => (NoValue, w'0)
     end) = (o, w') →
    ∃ outputFile w1 o2 w2,
      scan_end unsafeOutputFileParamName runs toolname extension parameters w
               outputFile w1
      ∧ run_loop os runs extension toolname toolpath parameters outputFile w1
        = (o2, w2)
      ∧ ((o2 = Returned tt ∧ o = Exited 0
          ∧ w' = after w2 [LOG 1 all_processed_log])
         ∨ (o2 ≠ Returned tt ∧ o = o2 ∧ w' = w2))) as Hloop.
  { intros outputFile w1 Hscan Hend.
    destruct (run_loop os runs extension toolname toolpath parameters
                outputFile w1) as [o2 w2] eqn:Hruns.
    exists outputFile, w1, o2, w2. split; [done|]. split; [done|].
    destruct o2 as [[]| | | | |]; injection Hend as <- <-;
      (by left) || (by right). }
  destruct unsafeOutputFileParamName as [name|].
  - destruct (1 <? length runs)%nat eqn:Hmany.
    + destruct (find_output_file name runs toolname extension parameters 0 w)
        as [o1 w1] eqn:Hfind.
      apply Nat.ltb_lt in Hmany.
      apply find_output_file_cases in Hfind
        as [(-> & -> & Hall)|[(j & v & -> & Hj & Hv & Hpre & ->)
                             |(-> & -> & Hin)]].
      * right. apply (Hloop None w); [|exact Hrun]. left.
        repeat split; try done. right; right. by exists name.
      * right.
        apply (Hloop (Some j)
                 (after w (unsafe_output_notice runs toolname extension)));
          [|exact Hrun].
        right. exists name, j, v. by repeat split.
      * left. injection Hrun as <- <-. exists name. by repeat split.
    + right. apply (Hloop None w); [|exact Hrun]. left.
      repeat split; try done. right; left. apply Nat.ltb_ge in Hmany. lia.
  - right. apply (Hloop None w); [|exact Hrun]. left. repeat split; try done.
    by left.
Qed.

Lemma children_container_diagnostics l :
  children (container_diagnostics l) = [].
Proof. induction l as [|a l IH]; [done|]. apply IH. Qed.

Lemma children_notice runs extension' :
  children (unsafe_output_notice runs toolname extension') = [].
Proof.
  unfold unsafe_output_notice. change (children (Cout ?m :: ?t))
    with (children t).
  induction runs as [|run rest IH]; [done|]. apply IH.
Qed.

(** The children the top level starts, whatever they do. *)
Lemma processAccessions_children accessions w o w' :
  dispatch accessions w = (o, w') →
  ∃ outputFile new,
    children (trace w') = children (trace w) ++ new
    ∧ spawned w' = (spawned w + length new)%nat
    ∧ Forall (well_formed_child os extension toolname toolpath parameters
                outputFile (first_occurrences accessions)) new
    ∧ (unsafeOutputFileParamName = None
       ∨ (length (first_occurrences accessions) ≤ 1)%nat →
       outputFile = None)
    ∧ (∀ j, outputFile = Some j →
            ∃ name v, unsafeOutputFileParamName = Some name
                      ∧ parameters !! j = Some (name, Some v)
                      ∧ v ≠ "/dev/null"
                      ∧ Forall (discards name) (take j parameters)).
Proof.
  intros Hrun. destruct (decide (accessions = [])) as [->|Hne].
  { exists None, []. rewrite app_nil_r. cbn in Hrun.
    unfold emptyInvocation, stop in Hrun.
    destruct (execve_ok os toolpath); injection Hrun as <- <-;
      (split; [done|]; split; [cbn; lia|]; split; [constructor|];
       split; done). }
  pose proof (processAccessions_cases _ _ _ _ Hne Hrun) as Hcases.
  cbv zeta in Hcases.
  destruct Hcases
    as [(_ & -> & ->)|(_ & [(name & _ & _ & _ & -> & ->)
                           |(outputFile & w1 & o2 & w2 & Hscan & Hloop & Hend)])].
  - exists None, []. cbn [after trace spawned].
    rewrite children_app, children_app, children_container_diagnostics.
    cbn. rewrite app_nil_r.
    split; [done|]. split; [lia|]. split; [constructor|]. by split.
  - exists None, []. rewrite app_nil_r.
    split; [done|]. split; [cbn; lia|]. split; [constructor|]. by split.
  - apply run_loop_cases in Hloop as (new & Hch & Hsp & Hwf & _).
    exists outputFile, new.
    assert (children (trace w') = children (trace w2) ∧ spawned w' = spawned w2)
      as [-> ->].
    { destruct Hend as [(_ & _ & ->)|(_ & _ & ->)]; [|done].
      cbn. rewrite children_app. cbn. by rewrite app_nil_r. }
    assert (children (trace w1) = children (trace w) ∧ spawned w1 = spawned w)
      as [Hch1 Hsp1].
    { destruct Hscan as [(_ & -> & _)
                        |(name & j & v & _ & _ & _ & _ & _ & _ & ->)]; [done|].
      cbn. rewrite children_app, children_notice. by rewrite app_nil_r. }
    rewrite Hch, Hsp, Hch1, Hsp1. split; [done|]. split; [done|].
    split; [done|]. split.
    + intros Hnone.
      destruct Hscan as [(-> & _)|(name & j & v & Hu & Hmany & _)]; [done|].
      destruct Hnone as [Hnone|Hfew]; [congruence|lia].
    + intros j ->.
      destruct Hscan as [([=] & _)
                        |(name & j' & v & Hu & _ & [= <-] & Hj & Hv & Hpre & _)].
      by exists name, v.
Qed.

(** How the top level ends. *)
Lemma processAccessions_ends accessions w o w' :
  dispatch accessions w = (o, w') →
  match o with
  | Returned _ => False
  | Exited c =>
      accessions ≠ []
      ∧ (c = 0 →
         existsb (offending os) accessions = false
         ∧ last (trace w') = Some (LOG 1 all_processed_log))
  | Aborted => accessions ≠ [] ∧ existsb (offending os) accessions = false
  | Execed path argv =>
      accessions = [] ∧ path = toolpath ∧ argv = [argv0 os] ∧ w' = w
  | Thrown _ => accessions = [] ∧ w' = w
  | NoValue =>
      ∃ name, unsafeOutputFileParamName = Some name
              ∧ (name, None) ∈ parameters
              ∧ (1 < length (first_occurrences accessions))%nat
              ∧ w' = w
  end.
Proof.
  intros Hrun. destruct (decide (accessions = [])) as [->|Hne].
  { cbn in Hrun. unfold emptyInvocation, stop in Hrun.
    destruct (execve_ok os toolpath); by injection Hrun as <- <-. }
  pose proof (processAccessions_cases _ _ _ _ Hne Hrun) as Hcases.
  cbv zeta in Hcases.
  destruct Hcases
    as [(_ & -> & ->)|(Hnone & [(name & Hu & Hmany & Hin & -> & ->)
                               |(outputFile & w1 & o2 & w2 & Hscan & Hloop & Hend)])].
  - by split.
  - by exists name.
  - apply run_loop_cases in Hloop as (new & _ & _ & _ & Ho2).
    destruct Hend as [(-> & -> & ->)|(Hnot & -> & ->)].
    + split; [done|]. intros _. split; [done|]. cbn. apply last_snoc.
    + destruct o2 as [[]|c| | | |]; try done.
Qed.

End TopLevelFacts.

(** ** The trace only grows *)

Section Extending.

Lemma extending_ret {A} (a : A) : extending (ret a).
Proof. intros w. exists []. by rewrite app_nil_r. Qed.

Lemma extending_stop {A} (o : outcome A) : extending (stop o).
Proof. intros w. exists []. by rewrite app_nil_r. Qed.

Lemma extending_emit e : extending (emit e).
Proof. intros w. by exists [e]. Qed.

Lemma extending_bind {A B} (m : M A) (k : A → M B) :
  extending m → (∀ a, extending (k a)) → extending (bind m k).
Proof.
  intros Hm Hk w. unfold bind. destruct (Hm w) as [ev Hev].
  destruct (m w) as [[a| | | | |] w1]; cbn in Hev; try by exists ev.
  destruct (Hk a w1) as [ev' Hev']. exists (ev ++ ev').
  by rewrite Hev', Hev, app_assoc.
Qed.

Context (os : env).

Lemma extending_processSource run toolname c :
  extending (processSource os run toolname c).
Proof.
  unfold processSource. apply extending_bind.
  { intros w. by exists [RunChild c]. }
  intros [pid r]. cbn [fst snd].
  repeat match goal with
    | |- extending (if ?b then _ else _) => destruct b
    | |- extending (bind _ _) => apply extending_bind; [|intros _]
    | |- extending (emit _) => apply extending_emit
    | |- extending (ret _) => apply extending_ret
    | |- extending (exit _) => apply extending_stop
    | |- extending abort => apply extending_stop
    end.
Qed.

Lemma extending_source_loop run extension toolname toolpath parameters
    outputFile sources success :
  extending (source_loop os run extension toolname toolpath parameters
               outputFile sources success).
Proof.
  revert success. induction sources as [|src rest IH]; intros success.
  - apply extending_ret.
  - cbn [source_loop]. apply extending_bind; [apply extending_processSource|].
    intros [|]; [apply extending_ret|].
    apply extending_bind; [apply extending_emit|]. intros _. apply IH.
Qed.

Lemma extending_print_services sources : extending (print_services sources).
Proof.
  induction sources as [|i rest IH]; [apply extending_ret|].
  cbn [print_services]. apply extending_bind; [apply extending_emit|done].
Qed.

Lemma extending_processRun run extension toolname toolpath parameters
    outputFile :
  extending (processRun os run extension toolname toolpath parameters
               outputFile).
Proof.
  unfold processRun. destruct (data_sources os run) as [|src rest].
  - apply extending_bind; [apply extending_emit|]. intros _.
    apply extending_ret.
  - apply extending_bind; [apply extending_emit|]. intros _.
    apply extending_bind; [apply extending_source_loop|].
    intros [|]; cbn [negb].
    + apply extending_ret.
    + apply extending_bind; [apply extending_emit|]. intros _.
      apply extending_bind; [apply extending_print_services|]. intros _.
      apply extending_bind; [apply extending_emit|]. intros _.
      apply extending_stop.
Qed.

Lemma extending_run_loop runs extension toolname toolpath parameters
    outputFile :
  extending (run_loop os runs extension toolname toolpath parameters
               outputFile).
Proof.
  induction runs as [|run rest IH]; [apply extending_ret|].
  cbn [run_loop]. apply extending_bind; [apply extending_emit|]. intros _.
  apply extending_bind; [apply extending_processRun|done].
Qed.

End Extending.

(** ** The choice of the output file entry *)

Lemma find_output_file_found name runs toolname extension pre value post i w :
  value ≠ "/dev/null" → Forall (discards name) pre →
  find_output_file name runs toolname extension
                   (pre ++ (name, Some value) :: post) i w
  = (Returned (Some (i + length pre)%nat),
     after w (unsafe_output_notice runs toolname extension)).
Proof.
  intros Hvalue. revert i.
  induction pre as [|[first second] pre IH]; intros i Hpre.
  - cbn [app find_output_file length]. rewrite String.eqb_refl.
    destruct (String.eqb_spec value "/dev/null"); [done|]. cbn [negb].
    unfold bind. rewrite print_unsafe_output_file_message_spec.
    by rewrite Nat.add_0_r.
  - apply Forall_cons in Hpre as [Hentry Hpre].
    cbn [app find_output_file length]. rewrite Nat.add_succ_r.
    destruct (String.eqb_spec first name) as [Heq|Hne]; [|by apply IH].
    specialize (Hentry Heq). cbn in Hentry. subst second. cbn. by apply IH.
Qed.

Lemma find_output_file_none name runs toolname extension parameters i w :
  Forall (discards name) parameters →
  find_output_file name runs toolname extension parameters i w
  = (Returned None, w).
Proof.
  revert i. induction parameters as [|[first second] rest IH]; intros i Hall;
    [done|].
  apply Forall_cons in Hall as [Hentry Hall]. cbn [find_output_file].
  destruct (String.eqb_spec first name) as [Heq|Hne]; [|by apply IH].
  specialize (Hentry Heq). cbn in Hentry. subst second. cbn. by apply IH.
Qed.

(** X7. The scan for the unsafe output parameter passes over the entries of
    other names and over those whose value is the discard path /dev/null,
    and stops at the first entry of the name with another value: it returns
    the position of that entry after printing the notice that lists one
    output file per run.  When there is no such entry it returns none and
    prints nothing. *)
Theorem output_file_entry_chosen
    (name toolname extension : string) (runs : list string) (w : world) :
  (∀ pre value post,
      value ≠ "/dev/null" → Forall (discards name) pre →
      find_output_file name runs toolname extension
                       (pre ++ (name, Some value) :: post) 0 w
      = (Returned (Some (length pre)),
         after w (unsafe_output_notice runs toolname extension)))
  ∧ (∀ parameters,
      Forall (discards name) parameters →
      find_output_file name runs toolname extension parameters 0 w
      = (Returned None, w)).
Proof.
  split.
  - intros. by rewrite find_output_file_found.
  - intros. by apply find_output_file_none.
Qed.

Lemma output_file_entry_chosen_witness :
  find_output_file "--outfile" ["SRR000001"; "SRR000002"] "fasterq-dump"
    ".fastq"
    [("--outfile", Some "/dev/null"); ("--threads", Some "4");
     ("--outfile", Some "reads.fastq"); ("--outfile", Some "other.fastq")]
    0 world0
  = (Returned (Some 2%nat),
     World (unsafe_output_notice ["SRR000001"; "SRR000002"] "fasterq-dump"
                                 ".fastq") 0).
Proof.
  refine (proj1 (output_file_entry_chosen "--outfile" "fasterq-dump" ".fastq"
                   ["SRR000001"; "SRR000002"] world0)
            [("--outfile", Some "/dev/null"); ("--threads", Some "4")]
            "reads.fastq" [("--outfile", Some "other.fastq")] _ _).
  - discriminate.
  - constructor; [by intros _|]. constructor; [|constructor].
    intros Hname. discriminate Hname.
Defined.

(** ** What the top level guarantees *)

Lemma first_source_children_sources os extension toolname toolpath parameters
    outputFile runs :
  (λ c, (child_run c, child_source c))
  <$> first_source_children os extension toolname toolpath parameters
                            outputFile runs
  = first_sources os runs.
Proof.
  unfold first_source_children, first_sources.
  induction runs as [|run rest IH]; [done|]. cbn [mbind list_bind].
  rewrite fmap_app, IH. by destruct (data_sources os run).
Qed.

Lemma scan_end_children unsafeOutputFileParamName runs toolname extension
    parameters w outputFile w1 :
  scan_end unsafeOutputFileParamName runs toolname extension parameters w
           outputFile w1 →
  children (trace w1) = children (trace w) ∧ spawned w1 = spawned w.
Proof.
  intros [(_ & -> & _)|(name & j & v & _ & _ & _ & _ & _ & _ & ->)]; [done|].
  cbn. rewrite children_app, children_notice. by rewrite app_nil_r.
Qed.

(** X8. Whatever the children do, every child the dispatcher starts is
    started for an accession of the input and for a source the resolver gave
    for that run, with the tool name and path it was called with and with
    the parameter names in their original order.  When no unsafe output
    parameter name is given, or there is at most one run, the parameters
    are passed on unchanged. *)
Theorem dispatched_children
    (os : env) (toolname toolpath : string)
    (unsafeOutputFileParamName : option string) (extension : string)
    (parameters : ParamList) (accessions : list string) (w : world) :
  let final :=
    processAccessions os toolname toolpath unsafeOutputFileParamName
                      extension parameters accessions w in
  ∃ new,
    children (trace final.2) = children (trace w) ++ new
    ∧ spawned final.2 = (spawned w + length new)%nat
    ∧ Forall (λ c,
        child_run c ∈ accessions
        ∧ child_source c ∈ data_sources os (child_run c)
        ∧ child_toolname c = toolname ∧ child_toolpath c = toolpath
        ∧ (child_parameters c).*1 = parameters.*1
        ∧ (unsafeOutputFileParamName = None
           ∨ (length (first_occurrences accessions) ≤ 1)%nat →
           child_parameters c = parameters)) new.
Proof.
  intros final. destruct final as [o w'] eqn:Hrun. subst final.
  apply processAccessions_children in Hrun
    as (outputFile & new & Hch & Hsp & Hwf & Hnone & _).
  exists new. split; [done|]. split; [done|].
  eapply Forall_impl; [exact Hwf|]. intros c (Hrun & Hsrc & Hc).
  destruct c as [tn tp src ps run]. cbn in *.
  injection Hc as -> -> ->.
  split; [by apply elem_of_first_occurrences|]. split; [done|].
  split; [done|]. split; [done|]. split; [apply rewrite_output_names|].
  intros Hkeep. by rewrite (Hnone Hkeep).
Qed.

(** X9. The top level never returns.  It exits with 0 only after the loop
    over all the runs has ended, its last act being the log line that all
    runs were processed.  It replaces itself by the tool, or throws, only
    on an empty list of accessions, before anything is printed.  It calls
    [value()] on a parameter without value only if an unsafe output
    parameter name is given, an entry of that name has no value and there
    is more than one run. *)
Theorem dispatcher_ends
    (os : env) (toolname toolpath : string)
    (unsafeOutputFileParamName : option string) (extension : string)
    (parameters : ParamList) (accessions : list string) (w : world) :
  let final :=
    processAccessions os toolname toolpath unsafeOutputFileParamName
                      extension parameters accessions w in
  final.1 ≠ Returned tt
  ∧ (final.1 = Exited 0 →
     accessions ≠ [] ∧ existsb (offending os) accessions = false
     ∧ last (trace final.2)
       = Some (LOG 1 [Str "All runs were processed successfully"; Endl]))
  ∧ (∀ path argv, final.1 = Execed path argv →
        accessions = [] ∧ path = toolpath ∧ argv = [argv0 os] ∧ final.2 = w)
  ∧ (∀ what, final.1 = Thrown what → accessions = [] ∧ final.2 = w)
  ∧ (final.1 = NoValue →
     ∃ name, unsafeOutputFileParamName = Some name
             ∧ (name, None) ∈ parameters
             ∧ (1 < length (first_occurrences accessions))%nat
             ∧ final.2 = w).
Proof.
  intros final. destruct final as [o w'] eqn:Hrun. subst final.
  apply processAccessions_ends in Hrun. cbn [fst snd].
  destruct o as [[]|c| |path argv|what|]; try done.
  - split_and!; try done. intros [= ->]. destruct Hrun as [Hne Hzero].
    destruct (Hzero eq_refl). done.
  - split_and!; try done. by intros ? ? [= <- <-].
Qed.

(** X10. When every child exits with 0, no accession is an offending
    container and every parameter of the unsafe output name has a value,
    the dispatcher exits with 0 and has started exactly one child per run
    that has a source, for the first source of that run, in the order of the
    first occurrences of the accessions. *)
Theorem all_children_succeed_exit_0
    (os : env) (toolname toolpath : string)
    (unsafeOutputFileParamName : option string) (extension : string)
    (parameters : ParamList) (accessions : list string) (w : world) :
  all_children_succeed os → accessions ≠ [] →
  existsb (offending os) accessions = false →
  (∀ name, unsafeOutputFileParamName = Some name →
           Forall (carries_value name) parameters) →
  let final :=
    processAccessions os toolname toolpath unsafeOutputFileParamName
                      extension parameters accessions w in
  final.1 = Exited 0
  ∧ ∃ new,
      children (trace final.2) = children (trace w) ++ new
      ∧ (λ c, (child_run c, child_source c)) <$> new
        = first_sources os (first_occurrences accessions).
Proof.
  intros Hall Hne Hnone Hvalues final.
  destruct final as [o w'] eqn:Hrun. subst final. cbn [fst snd].
  pose proof (processAccessions_cases _ _ _ _ _ _ _ _ _ _ Hne Hrun) as Hcases.
  cbv zeta in Hcases.
  destruct Hcases
    as [(Hany & _)|(_ & [(name & Hu & _ & Hin & _)
                        |(outputFile & w1 & o2 & w2 & Hscan & Hloop & Hend)])].
  - congruence.
  - exfalso. specialize (Hvalues name Hu).
    rewrite Forall_forall in Hvalues. destruct (Hvalues _ Hin eq_refl) as [? ?].
    discriminate.
  - destruct (run_loop_all_succeed os extension toolname toolpath parameters
                outputFile (first_occurrences accessions) w1 Hall)
      as (w2' & Hloop' & Hch).
    rewrite Hloop in Hloop'. injection Hloop' as -> ->.
    destruct Hend as [(_ & -> & ->)|(Hnot & _)]; [|done].
    split; [done|]. eexists. split.
    + cbn. rewrite children_app. cbn. rewrite app_nil_r, Hch.
      by rewrite (proj1 (scan_end_children _ _ _ _ _ _ _ _ Hscan)).
    + apply first_source_children_sources.
Qed.

Lemma all_children_succeed_exit_0_witness :
  let final :=
    processAccessions os_gap "fasterq-dump" "/usr/bin/fasterq-dump-orig"
      (Some "--outfile") ".fastq" [("--outfile", Some "/dev/null")]
      ["SRR000002"; "SRR000001"; "SRR000002"; "SRR000003"] world0 in
  final.1 = Exited 0
  ∧ ∃ new,
      children (trace final.2) = children (trace world0) ++ new
      ∧ (λ c, (child_run c, child_source c)) <$> new
        = [("SRR000002", Source "ncbi"); ("SRR000003", Source "ncbi")].
Proof.
  apply (all_children_succeed_exit_0 os_gap "fasterq-dump"
           "/usr/bin/fasterq-dump-orig" (Some "--outfile") ".fastq"
           [("--outfile", Some "/dev/null")]
           ["SRR000002"; "SRR000001"; "SRR000002"; "SRR000003"] world0).
  - intros n. by split.
  - discriminate.
  - reflexivity.
  - intros name [= <-]. constructor; [|constructor]. intros _. by eexists.
Defined.

(** X11. With more than one run and the unsafe output parameter set to a
    path other than /dev/null, the notice is printed before any child is
    started, and every child started, whatever the children do, gets the
    parameters with that entry's value replaced by the name of its own run
    followed by the extension and every other entry unchanged. *)
Theorem output_file_rewritten_for_each_run
    (os : env) (toolname toolpath name extension : string)
    (pre post : ParamList) (value : string)
    (accessions : list string) (w : world) :
  value ≠ "/dev/null" → Forall (discards name) pre →
  (1 < length (first_occurrences accessions))%nat →
  existsb (offending os) accessions = false →
  let final :=
    processAccessions os toolname toolpath (Some name) extension
                      (pre ++ (name, Some value) :: post) accessions w in
  ∃ new rest,
    children (trace final.2) = children (trace w) ++ new
    ∧ Forall (λ c, child_parameters c
                   = pre ++ (name, Some (child_run c +:+ extension)) :: post)
             new
    ∧ trace final.2
      = trace w
        ++ unsafe_output_notice (first_occurrences accessions) toolname
                                extension
        ++ rest.
Proof.
  intros Hvalue Hpre Hmany Hnone final.
  destruct final as [o w'] eqn:Hfinal. subst final. cbn [fst snd].
  destruct accessions as [|acc more]; [cbn in Hmany; lia|].
  unfold processAccessions in Hfinal. unfold bind at 1 in Hfinal.
  rewrite expandAll_spec, Hnone in Hfinal.
  unfold bind at 1 in Hfinal. apply Nat.ltb_lt in Hmany.
  rewrite Hmany in Hfinal.
  rewrite find_output_file_found in Hfinal by done. cbn [Nat.add] in Hfinal.
  set (runs := first_occurrences (acc :: more)) in *.
  set (w1 := after w (unsafe_output_notice runs toolname extension)) in *.
  unfold bind at 1 in Hfinal.
  destruct (extending_run_loop os runs extension toolname toolpath
              (pre ++ (name, Some value) :: post) (Some (length pre)) w1)
    as [events Hevents].
  destruct (run_loop os runs extension toolname toolpath
              (pre ++ (name, Some value) :: post) (Some (length pre)) w1)
    as [o2 w2] eqn:Hloop.
  cbn [snd] in Hevents.
  apply run_loop_cases in Hloop as (new & Hch & _ & Hwf & _).
  assert (children (trace w1) = children (trace w)) as Hch1.
  { subst w1. cbn. rewrite children_app, children_notice.
    by rewrite app_nil_r. }
  assert (Forall (λ c, child_parameters c
                       = pre ++ (name, Some (child_run c +:+ extension))
                             :: post) new) as Hparams.
  { eapply Forall_impl; [exact Hwf|]. intros c (_ & _ & Hc).
    rewrite Hc at 1. cbn [child_parameters source_child].
    apply rewrite_output_found. }
  assert (trace w2 = trace w
                     ++ unsafe_output_notice runs toolname extension ++ events)
    as Htrace.
  { rewrite Hevents. subst w1. cbn [after trace]. by rewrite <- app_assoc. }
  destruct o2 as [[]|c| | | |]; injection Hfinal as <- <-.
  - exists new, (events ++ [LOG 1 all_processed_log]).
    cbn [after trace]. rewrite children_app, Hch, Hch1.
    change (children [LOG 1 all_processed_log]) with (@nil child_code).
    rewrite app_nil_r.
    split; [done|]. split; [done|]. by rewrite Htrace, <- !app_assoc.
  - exists new, events. by rewrite Hch, Hch1.
  - exists new, events. by rewrite Hch, Hch1.
  - exists new, events. by rewrite Hch, Hch1.
  - exists new, events. by rewrite Hch, Hch1.
  - exists new, events. by rewrite Hch, Hch1.
Qed.

Lemma output_file_rewritten_for_each_run_witness :
  let final :=
    processAccessions os_tool_error "fasterq-dump"
      "/usr/bin/fasterq-dump-orig" (Some "--outfile") ".fastq"
      ([("--threads", Some "4")]
       ++ ("--outfile", Some "reads.fastq") :: [("--split-3", None)])
      ["SRR000001"; "SRR000002"] world0 in
  ∃ new rest,
    children (trace final.2) = children (trace world0) ++ new
    ∧ Forall (λ c, child_parameters c
                   = [("--threads", Some "4")]
                     ++ ("--outfile", Some (child_run c +:+ ".fastq"))
                        :: [("--split-3", None)]) new
    ∧ trace final.2
      = trace world0
        ++ unsafe_output_notice (first_occurrences ["SRR000001"; "SRR000002"])
                                "fasterq-dump" ".fastq"
        ++ rest.
Proof.
  apply (output_file_rewritten_for_each_run os_tool_error "fasterq-dump"
           "/usr/bin/fasterq-dump-orig" "--outfile" ".fastq"
           [("--threads", Some "4")] [("--split-3", None)] "reads.fastq"
           ["SRR000001"; "SRR000002"] world0).
  - discriminate.
  - constructor; [|constructor]. intros Hname. discriminate Hname.
  - vm_compute. lia.
  - reflexivity.
Defined.

(** ** sam-dump *)




Lemma sam_dump_outputFileParam_flag params flag value :
  (flag, value) ∈ params → flag = "--fastq" ∨ flag = "--fasta" →
  sam_dump_outputFileParam params = None.
Proof.
  intros Hin Hflag. unfold sam_dump_outputFileParam.
  destruct (List.find is_fastq_or_fasta params) eqn:Hfind; [done|].
  apply list_elem_of_In in Hin.
  pose proof (List.find_none _ _ Hfind _ Hin) as Hno.
  by destruct Hflag as [-> | ->].
Qed.



(** X13. When sam-dump is asked for FASTA or FASTQ it never looks for an
    output file entry: whatever the parameters, the number of runs and the
    behaviour of the children, no parameter value is read and every child is
    started with the parameters as they were parsed. *)
Theorem sam_dump_sequence_formats_keep_parameters
    (os : env) (toolname toolpath flag : string) (value : option string)
    (params : ParamList) (accessions : list string) (w : world) :
  (flag, value) ∈ params → flag = "--fastq" ∨ flag = "--fasta" →
  let final :=
    running_as_sam_dump os toolname toolpath (Some (params, accessions)) w in
  final.1 ≠ NoValue
  ∧ ∃ new,
      children (trace final.2) = children (trace w) ++ new
      ∧ Forall (λ c, child_parameters c = params) new.
Proof.
  intros Hin Hflag final. destruct final as [o w'] eqn:Hfinal. subst final.
  cbn [running_as_sam_dump] in Hfinal.
  rewrite (sam_dump_outputFileParam_flag _ _ _ Hin Hflag) in Hfinal.
  cbn [fst snd]. split.
  - apply processAccessions_ends in Hfinal. intros ->.
    by destruct Hfinal as (name & [=] & _).
  - apply processAccessions_children in Hfinal
      as (outputFile & new & Hch & _ & Hwf & Hnone & _).
    exists new. split; [done|]. rewrite (Hnone (or_introl eq_refl)) in Hwf.
    eapply Forall_impl; [exact Hwf|]. intros c (_ & _ & Hc).
    by rewrite Hc.
Qed.

Lemma sam_dump_sequence_formats_keep_parameters_witness :
  let params := [("--output-file", None); ("--fastq", None)] in
  let final :=
    running_as_sam_dump os_fallback "sam-dump" "/usr/bin/sam-dump-orig"
      (Some (params, ["SRR000001"; "SRR000002"])) world0 in
  final.1 ≠ NoValue
  ∧ ∃ new,
      children (trace final.2) = children (trace world0) ++ new
      ∧ Forall (λ c, child_parameters c = params) new.
Proof.
  apply (sam_dump_sequence_formats_keep_parameters os_fallback "sam-dump"
           "/usr/bin/sam-dump-orig" "--fastq" None
           [("--output-file", None); ("--fastq", None)]
           ["SRR000001"; "SRR000002"] world0).
  - apply list_elem_of_further, list_elem_of_here.
  - by left.
Defined.

Lemma run_exit_status_witness :
  let final :=
    processRun os_tool_error "SRR000001" ".fastq" "fasterq-dump"
               "/usr/bin/fasterq-dump-orig" [] None world0 in
  (0 < spawned final.2 - spawned world0)%nat
  ∧ exited (status os_tool_error (spawned final.2 - 1)) = true
  ∧ exit_code (status os_tool_error (spawned final.2 - 1)) = 3.
Proof.
  apply (proj1 (proj2 (proj2
           (run_exit_status os_tool_error "SRR000001" ".fastq" "fasterq-dump"
              "/usr/bin/fasterq-dump-orig" [] None world0))) 3);
    [reflexivity | discriminate].
Defined.

Lemma dispatcher_ends_witness :
  let final :=
    processAccessions os_gap "fasterq-dump" "/usr/bin/fasterq-dump-orig"
      None ".fastq" [] ["SRR000001"; "SRR000002"] world0 in
  ["SRR000001"; "SRR000002"] ≠ []
  ∧ existsb (offending os_gap) ["SRR000001"; "SRR000002"] = false
  ∧ last (trace final.2)
    = Some (LOG 1 [Str "All runs were processed successfully"; Endl]).
Proof.
  apply (proj1 (proj2
           (dispatcher_ends os_gap "fasterq-dump" "/usr/bin/fasterq-dump-orig"
              None ".fastq" [] ["SRR000001"; "SRR000002"] world0))).
  reflexivity.
Defined.

(** ** Local paths *)

(** X14. Accessions that are all readable as local paths are never
    classified: whatever their names, nothing is printed and the run list is
    the list of their first occurrences. *)
Theorem readable_paths_pass_through
    (os : env) (accessions : list string) (w : world) :
  Forall (λ acc, readable os acc = true) accessions →
  expandAll os accessions w = (Returned (first_occurrences accessions), w).
Proof.
  intros Hall. rewrite expandAll_spec.
  enough (existsb (offending os) accessions = false) as -> by done.
  induction Hall as [|acc rest Hacc _ IH]; [done|].
  cbn [existsb]. rewrite IH. unfold offending. by rewrite Hacc.
Qed.

Lemma readable_paths_pass_through_witness :
  expandAll os_local_file ["SRP000001"; "SRP000001"] world0
  = (Returned (first_occurrences ["SRP000001"; "SRP000001"]), world0).
Proof.
  apply (readable_paths_pass_through os_local_file ["SRP000001"; "SRP000001"]
           world0).
  by repeat constructor.
Defined.

(** ** The exit status of the dispatcher *)

Section ExitStatus.

Context (os : env) (extension toolname toolpath : string)
        (parameters : ParamList) (outputFile : option nat).

Local Abbreviation loop :=
  (λ runs, run_loop os runs extension toolname toolpath parameters outputFile).

(** Where a fatal end of the loop over the runs comes from. *)
Lemma run_loop_fatal runs w o w' :
  loop runs w = (o, w') →
  (spawned w ≤ spawned w')%nat
  ∧ match o with
    | Exited c =>
        (c = EX_TEMPFAIL
         ∧ ∃ run, run ∈ runs ∧ data_sources os run ≠ []
             ∧ (length (data_sources os run) ≤ spawned w' - spawned w)%nat
             ∧ ∀ i, (i < length (data_sources os run))%nat →
                 transient_failure
                   (status os (spawned w' - length (data_sources os run) + i)))
        ∨ ((spawned w < spawned w')%nat
           ∧ tool_failure (status os (spawned w' - 1))
           ∧ c = exit_code (status os (spawned w' - 1)))
    | Aborted =>
        (spawned w < spawned w')%nat
        ∧ exited (status os (spawned w' - 1)) = false
    | _ => True
    end.
Proof.
  revert w. induction runs as [|run rest IH]; intros w.
  - intros [= <- <-]. by split.
  - cbn [run_loop]. rewrite bind_emit. unfold bind at 1.
    destruct (processRun os run extension toolname toolpath parameters
                outputFile (after w [LOG 3 (processing_log run)]))
      as [o1 w1] eqn:Hrun.
    apply processRun_cases in Hrun as (k & Hk & Hsp & _ & _ & Hend).
    cbn [after spawned] in Hsp. unfold run_end in Hend.
    cbn [after spawned] in Hend.
    destruct o1 as [[]|c| | | |]; try done.
    + intros Hrest. apply IH in Hrest as [Hle Ho]. split; [lia|].
      destruct o as [|c| | | |]; try done.
      * destruct Ho as [(-> & r & Hr & Hne & Hlen & Hall)|(Hlt & Ht & ->)].
        -- left. split; [done|]. exists r.
           split; [by apply list_elem_of_further|]. split; [done|].
           split; [lia|done].
        -- right. split; [lia|done].
      * destruct Ho as [Hlt Hex]. split; [lia|done].
    + intros [= <- <-]. split; [lia|]. rewrite Hsp.
      destruct Hend as [(-> & Hne & -> & Hall)|(Hpos & Ht & ->)].
      * left. split; [done|]. exists run.
        split; [apply list_elem_of_here|]. split; [done|]. split; [lia|].
        intros i Hi.
        replace (spawned w + length (data_sources os run)
                 - length (data_sources os run) + i)%nat
          with (spawned w + i)%nat by lia.
        by apply Hall.
      * right. split; [lia|done].
    + intros [= <- <-]. split; [lia|]. rewrite Hsp.
      destruct Hend as [Hpos Hex]. split; [lia|done].
Qed.

(** An exit with EX_TEMPFAIL comes from a run all of whose sources were
    tried: the last children started are those of its sources. *)
Lemma run_loop_exhausted runs w w' :
  loop runs w = (Exited EX_TEMPFAIL, w') →
  ∃ run earlier,
    run ∈ runs ∧ data_sources os run ≠ []
    ∧ children (trace w')
      = children (trace w) ++ earlier
        ++ (source_child run extension toolname toolpath parameters outputFile
            <$> data_sources os run)
    ∧ spawned w'
      = (spawned w + length earlier + length (data_sources os run))%nat
    ∧ ∀ i, (i < length (data_sources os run))%nat →
        transient_failure (status os (spawned w + length earlier + i)).
Proof.
  revert w. induction runs as [|run rest IH]; intros w; [done|].
  cbn [run_loop]. rewrite bind_emit. unfold bind at 1.
  destruct (processRun os run extension toolname toolpath parameters
              outputFile (after w [LOG 3 (processing_log run)]))
    as [o1 w1] eqn:Hrun.
  apply processRun_cases in Hrun as (k & Hk & Hsp & Hch & _ & Hend).
  cbn [after trace spawned] in Hsp, Hch. rewrite children_app in Hch.
  change (children [LOG 3 (processing_log run)]) with (@nil child_code) in Hch.
  rewrite app_nil_r in Hch.
  unfold run_end in Hend. cbn [after spawned] in Hend.
  destruct o1 as [[]|c| | | |]; try done.
  - intros Hrest.
    apply IH in Hrest as (r & earlier & Hr & Hne & Hch' & Hsp' & Hall).
    exists r,
      ((source_child run extension toolname toolpath parameters outputFile
        <$> take k (data_sources os run)) ++ earlier).
    assert (length (take k (data_sources os run)) = k) as Hlen
      by (rewrite length_take; lia).
    split; [by apply list_elem_of_further|]. split; [done|].
    split; [by rewrite Hch', Hch, <- !app_assoc|].
    rewrite length_app, length_fmap, Hlen.
    split; [lia|]. intros i Hi.
    replace (spawned w + (k + length earlier) + i)%nat
      with (spawned w1 + length earlier + i)%nat by lia.
    by apply Hall.
  - intros [= -> <-].
    destruct Hend as [(_ & Hne & -> & Hall)|(_ & (_ & _ & Ht) & Hc)];
      [|congruence].
    exists run, []. rewrite firstn_all in Hch. cbn [length app].
    split; [apply list_elem_of_here|]. split; [done|]. split; [done|].
    split; [lia|]. intros i Hi. rewrite Nat.add_0_r. by apply Hall.
Qed.

End ExitStatus.

(** X15. Where no accession is an offending container, the exit status of
    the dispatcher tells what happened.  A status other than 0 and
    EX_TEMPFAIL is the exit code of the last child started, passed on as it
    is.  EX_TEMPFAIL means that for some run every source was tried and the
    children for them, the last ones started, all failed transiently: the
    last children started are, in order, one for each source of that run,
    each for that run and the tool given.  An abort means that the last
    child started did not exit. *)
Theorem exit_status_passed_through
    (os : env) (toolname toolpath : string)
    (unsafeOutputFileParamName : option string) (extension : string)
    (parameters : ParamList) (accessions : list string) (w : world) :
  existsb (offending os) accessions = false →
  let final :=
    processAccessions os toolname toolpath unsafeOutputFileParamName
                      extension parameters accessions w in
  let last := status os (spawned final.2 - 1) in
  (∀ c, final.1 = Exited c → c ≠ 0 → c ≠ EX_TEMPFAIL →
        (spawned w < spawned final.2)%nat
        ∧ exited last = true ∧ exit_code last = c)
  ∧ (final.1 = Exited EX_TEMPFAIL →
     ∃ run earlier tried,
       run ∈ accessions ∧ data_sources os run ≠ []
       ∧ (length (data_sources os run) ≤ spawned final.2 - spawned w)%nat
       ∧ (∀ i, (i < length (data_sources os run))%nat →
            transient_failure
              (status os (spawned final.2 - length (data_sources os run) + i)))
       ∧ children (trace final.2) = children (trace w) ++ earlier ++ tried
       ∧ spawned final.2 = (spawned w + length earlier + length tried)%nat
       ∧ child_source <$> tried = data_sources os run
       ∧ Forall (λ c, child_run c = run ∧ child_toolname c = toolname
                      ∧ child_toolpath c = toolpath) tried
       ∧ ∀ i, (i < length tried)%nat →
           transient_failure (status os (spawned w + length earlier + i)))
  ∧ (final.1 = Aborted →
     (spawned w < spawned final.2)%nat ∧ exited last = false).
Proof.
  intros Hnone final last. subst last.
  destruct final as [o w'] eqn:Hfinal. subst final. cbn [fst snd].
  destruct (decide (accessions = [])) as [->|Hne].
  { cbn in Hfinal. unfold emptyInvocation, stop in Hfinal.
    destruct (execve_ok os toolpath); injection Hfinal as <- <-;
      by split_and!. }
  pose proof (processAccessions_cases _ _ _ _ _ _ _ _ _ _ Hne Hfinal) as Hcases.
  cbv zeta in Hcases.
  destruct Hcases
    as [(Hany & _)|(_ & [(name & _ & _ & _ & -> & _)
                        |(outputFile & w1 & o2 & w2 & Hscan & Hloop & Hend)])];
    [congruence|by split_and!|].
  apply scan_end_children in Hscan as [Hch1 Hsp1].
  pose proof Hloop as Hexhausted.
  apply run_loop_fatal in Hloop as [Hle Ho2]. rewrite Hsp1 in *.
  destruct Hend as [(-> & -> & ->)|(Hnot & -> & ->)].
  { split_and!; try done. by intros c [= <-]. }
  destruct o2 as [[]|c| | | |]; try done; split_and!; try done.
  - intros c' [= <-] H0 Ht.
    destruct Ho2 as [(-> & _)|(Hlt & (He & _) & ->)]; done.
  - intros [= ->].
    apply run_loop_exhausted in Hexhausted
      as (run & earlier & Hrun & Hsrc & Hch & Hsp & Hall).
    rewrite Hch1 in Hch. rewrite Hsp1 in Hsp, Hall.
    exists run, earlier,
      (source_child run extension toolname toolpath parameters outputFile
       <$> data_sources os run).
    rewrite length_fmap.
    split; [by apply elem_of_first_occurrences|]. split; [done|].
    split; [lia|]. split.
    { intros i Hi.
      replace (spawned w2 - length (data_sources os run) + i)%nat
        with (spawned w + length earlier + i)%nat by lia.
      by apply Hall. }
    split; [done|]. split; [done|]. split.
    { rewrite <- list_fmap_compose. clear.
      induction (data_sources os run) as [|src l IH]; [done|].
      cbn. by rewrite IH. }
    split; [|done]. by apply Forall_fmap, Forall_true.
Qed.

Lemma exit_status_passed_through_witness :
  let final :=
    processAccessions os_tool_error "fasterq-dump"
      "/usr/bin/fasterq-dump-orig" None ".fastq" []
      ["SRR000001"; "SRR000002"] world0 in
  let stopped :=
    processAccessions os_exhausted "fasterq-dump"
      "/usr/bin/fasterq-dump-orig" None ".fastq" []
      ["SRR000001"; "SRR000002"] world0 in
  ((spawned world0 < spawned final.2)%nat
   ∧ exited (status os_tool_error (spawned final.2 - 1)) = true
   ∧ exit_code (status os_tool_error (spawned final.2 - 1)) = 3)
  ∧ ∃ run earlier tried,
      run ∈ ["SRR000001"; "SRR000002"]
      ∧ data_sources os_exhausted run ≠ []
      ∧ (length (data_sources os_exhausted run)
         ≤ spawned stopped.2 - spawned world0)%nat
      ∧ (∀ i, (i < length (data_sources os_exhausted run))%nat →
           transient_failure
             (status os_exhausted
                (spawned stopped.2 - length (data_sources os_exhausted run)
                 + i)))
      ∧ children (trace stopped.2)
        = children (trace world0) ++ earlier ++ tried
      ∧ spawned stopped.2
        = (spawned world0 + length earlier + length tried)%nat
      ∧ child_source <$> tried = data_sources os_exhausted run
      ∧ Forall (λ c, child_run c = run ∧ child_toolname c = "fasterq-dump"
                     ∧ child_toolpath c = "/usr/bin/fasterq-dump-orig") tried
      ∧ ∀ i, (i < length tried)%nat →
          transient_failure
            (status os_exhausted (spawned world0 + length earlier + i)).
Proof.
  split.
  - apply (proj1 (exit_status_passed_through os_tool_error "fasterq-dump"
                    "/usr/bin/fasterq-dump-orig" None ".fastq" []
                    ["SRR000001"; "SRR000002"] world0 eq_refl) 3);
      [reflexivity | discriminate | discriminate].
  - apply (proj1 (proj2
             (exit_status_passed_through os_exhausted "fasterq-dump"
                "/usr/bin/fasterq-dump-orig" None ".fastq" []
                ["SRR000001"; "SRR000002"] world0 eq_refl))).
    reflexivity.
Defined.

